(** * Ionospheric conductance: Hardy auroral model plus EUV model

    A shallow embedding of [lompe/utils/conductance.py] and the properties
    its specification states about [hardy_EUV], [EUV_conductance] and
    [hardy].

    Conventions of the embedding.
    - float64 arithmetic is idealised as arithmetic over the reals [R]:
      rounding, infinities and nan are outside the model.  Where numpy
      would produce inf or nan (division of an array by zero, logarithm
      or square root of a number outside the domain, a fractional power
      of a negative number) the model returns the value Rocq's total
      functions give there.  A theorem that states the value of such an
      expression carries the hypothesis that it is a number:
      [epstein_defined] for the Epstein function of [hardy], a
      non-negative F107 and a non-negative production table for
      [EUV_conductance].  The theorems without such a hypothesis state
      shapes, exceptions, or the equality of two results that the code
      computes by the same arithmetic.
    - Python exceptions are the constructors of [exn]; a call is a value
      of [result].
    - numpy arrays are a shape and the row-major list of their elements.
    - The coefficient tables and the Chapman production table are data
      files of the package; they are section variables here, as are the
      external collaborators [Dipole] and [sunlight.sza]. *)

From Stdlib Require Import Reals Lra Lia List String Ascii ZArith QArith Bool.
From Stdlib Require Import DecimalString.
Import ListNotations.

Open Scope R_scope.

(** ** Python values, exceptions and strings *)

Module Py.

Inductive exn : Type :=
| AssertionError (msg : string)
| ZeroDivisionError
| ValueError
| IndexError
| TypeError
| UnboundLocalError
| ExternalError.

Inductive result (A : Type) : Type :=
| Ok (a : A)
| Raise (e : exn).

Arguments Ok {A} a.
Arguments Raise {A} e.

Definition bind {A B : Type} (m : result A) (k : A -> result B) : result B :=
  match m with
  | Ok a => k a
  | Raise e => Raise e
  end.

Definition is_ok {A : Type} (m : result A) : bool :=
  match m with Ok _ => true | Raise _ => false end.

(** [assert c, msg] *)
Definition assert (c : bool) (msg : string) : result unit :=
  if c then Ok tt else Raise (AssertionError msg).

(** [str.lower()] on ASCII text. *)
Definition lower_ascii (c : ascii) : ascii :=
  let n := nat_of_ascii c in
  if (65 <=? n)%nat && (n <=? 90)%nat then ascii_of_nat (n + 32) else c.

Fixpoint lower (s : string) : string :=
  match s with
  | EmptyString => EmptyString
  | String c s' => String (lower_ascii c) (lower s')
  end.

(** [sub in s] for two strings: substring containment. *)
Fixpoint contains (sub s : string) : bool :=
  String.prefix sub s ||
  match s with
  | EmptyString => false
  | String _ s' => contains sub s'
  end.

(** [s in l] for a list of strings. *)
Definition str_in (s : string) (l : list string) : bool :=
  existsb (String.eqb s) l.

(** [t[-1]]: the last character; [IndexError] on the empty string. *)
Fixpoint last_char (t : string) : result ascii :=
  match t with
  | EmptyString => Raise IndexError
  | String c EmptyString => Ok c
  | String _ t' => last_char t'
  end.

(** [int(c)] for a one-character string; [ValueError] unless a digit. *)
Definition int_of_char (c : ascii) : result Z :=
  let n := nat_of_ascii c in
  if (48 <=? n)%nat && (n <=? 57)%nat then Ok (Z.of_nat (n - 48))
  else Raise ValueError.

(** The objects a caller may pass as [kp].  A float is given by its
    value.  [PyNumber q s] is an object of any other numeric type
    ([fractions.Fraction], [decimal.Decimal], a numpy scalar, ...): all
    that [hardy] asks of [kp] is its comparison with int literals, which
    such an object decides by its value [q], and [str(kp)], which is [s]
    ([str(Fraction(2, 1))] and [str(np.int64(2))] are ['2'],
    [str(np.float64(2.0))] is ['2.0']). *)
Inductive pyobj : Type :=
| PyInt (z : Z)
| PyFloat (q : Q)
| PyBool (b : bool)
| PyStr (s : string)
| PyNumber (q : Q) (s : string).

(** [o == k] for an int literal [k]: numeric comparison across the
    numeric types; a string never equals a number. *)
Definition eq_int (o : pyobj) (k : Z) : bool :=
  match o with
  | PyInt z => (z =? k)%Z
  | PyFloat q => Qeq_bool q (inject_Z k)
  | PyBool b => ((if b then 1 else 0) =? k)%Z
  | PyStr _ => false
  | PyNumber q _ => Qeq_bool q (inject_Z k)
  end.

(** [o in l] for a list of int literals. *)
Definition in_ints (o : pyobj) (l : list Z) : bool :=
  existsb (eq_int o) l.

Definition str_of_Z (z : Z) : string := NilZero.string_of_int (Z.to_int z).

(** Digits of the fractional part [r/d], by long division. *)
Fixpoint frac_digits (fuel : nat) (r d : Z) : string :=
  match fuel with
  | O => EmptyString
  | S fuel' =>
      if (r =? 0)%Z then EmptyString
      else String (ascii_of_nat (48 + Z.to_nat (10 * r / d)))
                  (frac_digits fuel' ((10 * r) mod d) d)
  end.

(** [str(x)] for a float of moderate size: an integral float prints as
    the integer followed by [.0]; any other float prints with a decimal
    point and its fractional digits. *)
Definition float_repr (q : Q) : string :=
  let n := Qnum q in
  let d := Zpos (Qden q) in
  let sign := if (n <? 0)%Z then "-"%string else EmptyString in
  let ip := (Z.abs n / d)%Z in
  let r := (Z.abs n mod d)%Z in
  (sign ++ str_of_Z ip ++ "." ++
   (if (r =? 0)%Z then "0" else frac_digits 17 r d))%string.

(** [str(o)] *)
Definition str (o : pyobj) : string :=
  match o with
  | PyInt z => str_of_Z z
  | PyFloat q => float_repr q
  | PyBool b => if b then "True"%string else "False"%string
  | PyStr s => s
  | PyNumber _ s => s
  end.

End Py.

Import Py.

Declare Scope py_scope.
Delimit Scope py_scope with py.
Notation "x <- m ;; k" := (bind m (fun x => k))
  (at level 61, m at next level, right associativity) : py_scope.
Notation "m ;;; k" := (bind m (fun _ : unit => k))
  (at level 61, right associativity) : py_scope.
Open Scope py_scope.

(** ** numpy: scalars, one-dimensional data, broadcasting, shapes *)

Module Np.

(** An operand of an elementwise operation: a scalar (a Python number or
    a numpy scalar) or the data of a one-dimensional array. *)
Inductive nd (A : Type) : Type :=
| Scalar (x : A)
| Arr (a : list A).

Arguments Scalar {A} x.
Arguments Arr {A} a.

(** Elementwise binary operation with numpy's broadcasting rule for
    one-dimensional operands: a scalar or a length-one array is stretched
    over the other operand; two arrays of other lengths must agree in
    length, else [ValueError]. *)
Definition np_bin {A B C : Type} (f : A -> B -> C) (u : nd A) (v : nd B)
  : result (nd C) :=
  match u, v with
  | Scalar x, Scalar y => Ok (Scalar (f x y))
  | Scalar x, Arr b => Ok (Arr (map (f x) b))
  | Arr a, Scalar y => Ok (Arr (map (fun x => f x y) a))
  | Arr a, Arr b =>
      match a, b with
      | [x], _ => Ok (Arr (map (f x) b))
      | _, [y] => Ok (Arr (map (fun x => f x y) a))
      | _, _ =>
          if (List.length a =? List.length b)%nat
          then Ok (Arr (map (fun p => f (fst p) (snd p)) (combine a b)))
          else Raise ValueError
      end
  end.

(** Elementwise unary function ([np.exp], [np.log], [np.sin], ...). *)
Definition np_un {A B : Type} (f : A -> B) (u : nd A) : nd B :=
  match u with
  | Scalar x => Scalar (f x)
  | Arr a => Arr (map f a)
  end.

Definition Rltb (x y : R) : bool := if Rlt_dec x y then true else false.

Definition np_add := np_bin Rplus.
Definition np_sub := np_bin Rminus.
Definition np_mul := np_bin Rmult.
Definition np_lt := np_bin Rltb.
Definition np_gt := np_bin (fun x y => Rltb y x).
Definition np_and := np_bin andb.

(** [u / v]: between two Python numbers a zero divisor raises
    [ZeroDivisionError]; as soon as one operand is an array the division
    is numpy's and does not raise. *)
Definition np_div (u v : nd R) : result (nd R) :=
  match u, v with
  | Scalar x, Scalar y =>
      if Req_dec_T y 0 then Raise ZeroDivisionError else Ok (Scalar (x / y))
  | _, _ => np_bin Rdiv u v
  end.

(** [a[mask] = c] with a boolean mask: the target must be an array and
    the mask an array of the same length. *)
Definition setitem (a : nd R) (mask : nd bool) (c : R) : result (nd R) :=
  match a, mask with
  | Arr xs, Arr ms =>
      if (List.length xs =? List.length ms)%nat
      then Ok (Arr (map (fun p : R * bool => if snd p then c else fst p)
                        (combine xs ms)))
      else Raise IndexError
  | Arr _, Scalar _ => Raise IndexError
  | Scalar _, _ => Raise TypeError
  end.

(** An array: its shape and its elements in row-major order.  A Python
    scalar handed to [np.array] is the array of shape [[]]. *)
Record ndarray : Type := mk_ndarray { shape : list nat; data : list R }.

Definition size_of (s : list nat) : nat := fold_right Nat.mul 1%nat s.

Definition wf_ndarray (a : ndarray) : Prop :=
  List.length (data a) = size_of (shape a).

Definition scalar_array (x : R) : ndarray := mk_ndarray [] [x].

(** [np.array(a, ndmin = 1)]: a zero-dimensional input becomes an array
    of shape [(1,)]; any other shape is kept. *)
Definition array_ndmin1 (a : ndarray) : ndarray :=
  match shape a with
  | [] => mk_ndarray [1%nat] (data a)
  | _ => a
  end.

Definition np_abs (a : ndarray) : ndarray :=
  mk_ndarray (shape a) (map Rabs (data a)).

(** Broadcasting of two shapes, aligned at their last axes. *)
Fixpoint broadcast_rev (a b : list nat) : option (list nat) :=
  match a, b with
  | [], _ => Some b
  | _, [] => Some a
  | x :: a', y :: b' =>
      match broadcast_rev a' b' with
      | None => None
      | Some r =>
          if (x =? y)%nat then Some (x :: r)
          else if (x =? 1)%nat then Some (y :: r)
          else if (y =? 1)%nat then Some (x :: r)
          else None
      end
  end.

(** [np.broadcast(a, b).shape] *)
Definition broadcast_shape (s1 s2 : list nat) : result (list nat) :=
  match broadcast_rev (rev s1) (rev s2) with
  | Some r => Ok (rev r)
  | None => Raise ValueError
  end.

(** [a.flatten()] *)
Definition flatten (a : ndarray) : list R := data a.

(** [a.reshape(shape)] of one-dimensional data. *)
Definition reshape (xs : list R) (s : list nat) : result ndarray :=
  if (List.length xs =? size_of s)%nat then Ok (mk_ndarray s xs)
  else Raise ValueError.

(** The array behind an operand that must be an array by now. *)
Definition as_array (u : nd R) : result (list R) :=
  match u with
  | Arr a => Ok a
  | Scalar _ => Raise TypeError
  end.

End Np.

Import Np.

(** ** Results of the three public functions *)

(** One array for channel [h] or [p], a pair (Hall, Pedersen) for [hp]. *)
Inductive ret : Type :=
| One (a : ndarray)
| Two (h p : ndarray)
| RetNone.

(** The arrays of a result. *)
Definition arrays (r : ret) : list ndarray :=
  match r with
  | One a => [a]
  | Two h p => [h; p]
  | RetNone => []
  end.

(** A local variable that is bound only on some paths. *)
Definition local (A : Type) := option A.

Definition read_local {A : Type} (v : local A) : result A :=
  match v with
  | Some a => Ok a
  | None => Raise UnboundLocalError
  end.

(** ** The Hardy auroral model: [hardy] *)

Module Hardy.

(** A cell of the text column [term] as [pd.read_table] delivers it:
    the text of the field, or the float nan where the field is empty. *)
Inductive cell : Type :=
| CellStr (s : string)
| CellNaN.

(** A row of [hardy_hall_coefficients.txt] or
    [hardy_pedersen_coefficients.txt] as [pd.read_table] delivers it. *)
Record coef_row : Type := mk_row {
  Kp : string;
  term : cell;
  maxvalue : R;
  maxlatitude : R;
  up_slope : R;
  down_slope : R
}.

(** [t[-1] if t[-1] != 't' else 0], an element of the list that the
    comprehension builds: the int 0 or a one-character string.  A float
    cannot be subscripted. *)
Definition last_or_zero (t : cell) : result (Z + ascii) :=
  match t with
  | CellNaN => Raise TypeError
  | CellStr s =>
      c <- last_char s ;;
      Ok (if Ascii.eqb c "t" then inl 0%Z else inr c)
  end.

(** [int(x)] on such an element. *)
Definition to_int (x : Z + ascii) : result Z :=
  match x with
  | inl z => Ok z
  | inr c => int_of_char c
  end.

(** [np.sin if t[:3] == 'Sin' else np.cos] *)
Definition term_trig (t : string) : R -> R :=
  if String.eqb (substring 0 3 t) "Sin" then sin else cos.

Definition cell_trig (t : cell) : result (R -> R) :=
  match t with
  | CellNaN => Raise TypeError
  | CellStr s => Ok (term_trig s)
  end.

(** The entry of column [n] for one term:
    [int(t[-1] if t[-1] != 't' else 0)]. *)
Definition term_n (t : string) : result Z :=
  c <- last_char t ;;
  if Ascii.eqb c "t" then Ok 0%Z else int_of_char c.

Fixpoint map_result {A B : Type} (f : A -> result B) (l : list A)
  : result (list B) :=
  match l with
  | [] => Ok []
  | a :: l' => b <- f a ;; bs <- map_result f l' ;; Ok (b :: bs)
  end.

(** The dictionary with keys maxvalue, maxlatitude, up-slope, down-slope. *)
Record epstein : Type := mk_epstein {
  ep_maxvalue : nd R;
  ep_maxlatitude : nd R;
  ep_up_slope : nd R;
  ep_down_slope : nd R
}.

(** [dict(zip([...], [0]*4))] *)
Definition epstein_init : epstein :=
  mk_epstein (Scalar 0) (Scalar 0) (Scalar 0) (Scalar 0).

(** [values[key] * values['trig'](values['n'] * mlt / 12 * np.pi)] *)
Definition fourier_term (coef : R) (trig : R -> R) (n : Z) (mlt : nd R)
  : result (nd R) :=
  a <- np_mul (Scalar (IZR n)) mlt ;;
  b <- np_div a (Scalar 12) ;;
  c <- np_mul b (Scalar PI) ;;
  np_mul (Scalar coef) (np_un trig c).

(** One pass of the inner loop [for key in hall_epstein: ... += ...]. *)
Definition add_row (mlt : nd R) (e : epstein)
  (row : coef_row * (Z * (R -> R))) : result epstein :=
  let values := fst row in
  let n := fst (snd row) in
  let trig := snd (snd row) in
  t1 <- fourier_term (maxvalue values) trig n mlt ;;
  v1 <- np_add (ep_maxvalue e) t1 ;;
  t2 <- fourier_term (maxlatitude values) trig n mlt ;;
  v2 <- np_add (ep_maxlatitude e) t2 ;;
  t3 <- fourier_term (up_slope values) trig n mlt ;;
  v3 <- np_add (ep_up_slope e) t3 ;;
  t4 <- fourier_term (down_slope values) trig n mlt ;;
  v4 <- np_add (ep_down_slope e) t4 ;;
  Ok (mk_epstein v1 v2 v3 v4).

(** The outer loop [for row in hc.iterrows()]. *)
Fixpoint iterrows (mlt : nd R) (rows : list (coef_row * (Z * (R -> R))))
  (e : epstein) : result epstein :=
  match rows with
  | [] => Ok e
  | row :: rows' => e' <- add_row mlt e row ;; iterrows mlt rows' e'
  end.

(** [r + S1*(mlat - h0) + (S2 - S1) * np.log((1 - S1/(S2 *
    np.exp(-(mlat - h0)))) / (1 - (S1/S2)))], operand by operand in
    Python's evaluation order.  Where an array is divided by zero or the
    argument of [np.log] is not positive, numpy yields nan or an infinity
    and the element computed here is a convention. *)
Definition epstein_transition (r S1 S2 h0 mlat : nd R) : result (nd R) :=
  d <- np_sub mlat h0 ;;
  t1 <- np_mul S1 d ;;
  a <- np_add r t1 ;;
  s21 <- np_sub S2 S1 ;;
  d' <- np_sub mlat h0 ;;
  se <- np_mul S2 (np_un exp (np_un Ropp d')) ;;
  q <- np_div S1 se ;;
  num <- np_sub (Scalar 1) q ;;
  q' <- np_div S1 S2 ;;
  den <- np_sub (Scalar 1) q' ;;
  arg <- np_div num den ;;
  t2 <- np_mul s21 (np_un ln arg) ;;
  np_add a t2.

(** The two masked assignments that introduce the floors. *)
Definition floors (mlat h0 c : nd R) : result (nd R) :=
  m1 <- np_lt mlat h0 ;;
  m2 <- np_lt c (Scalar 0) ;;
  m <- np_and m1 m2 ;;
  c1 <- setitem c m 0 ;;
  m3 <- np_gt mlat h0 ;;
  m4 <- np_lt c1 (Scalar 0.55) ;;
  m' <- np_and m3 m4 ;;
  setitem c1 m' 0.55.

(** [hc[hc.Kp == 'K' + str(kp)]] *)
Definition select_kp (table : list coef_row) (kp : pyobj) : list coef_row :=
  filter (fun row => String.eqb (Kp row) ("K" ++ str kp)) table.

(** The selected rows with their columns [n] and [trig]. *)
Definition parsed_row : Type := (coef_row * (Z * (R -> R)))%type.

(** The two assignments [hc['n'] = list(map(int, [... for t in
    hc['term']]))] and [hc['trig'] = [... for t in hc['term']]]: the
    comprehension runs over every term before [int] sees its first
    element. *)
Definition derived_columns (hc : list coef_row) : result (list parsed_row) :=
  lasts <- map_result last_or_zero (map term hc) ;;
  ns <- map_result to_int lasts ;;
  trigs <- map_result cell_trig (map term hc) ;;
  Ok (combine hc (combine ns trigs)).

(** The block that hardy runs once per channel, on the table of that
    channel: selection of the rows, the columns [n] and [trig], the
    Fourier series, the Epstein function and the floors. *)
Definition hardy_channel (table : list coef_row) (mlat mlt : list R)
  (kp : pyobj) : result (list R) :=
  let hc := select_kp table kp in
  rows <- derived_columns hc ;;
  e <- iterrows (Arr mlt) rows epstein_init ;;
  let r := ep_maxvalue e in
  let S1 := ep_up_slope e in
  let S2 := ep_down_slope e in
  let h0 := ep_maxlatitude e in
  c <- epstein_transition r S1 S2 h0 (Arr mlat) ;;
  c' <- floors (Arr mlat) h0 c ;;
  as_array c'.

Definition channels : list string := ["h"; "p"; "hp"]%string.

Definition kp_levels : list Z := [0; 1; 2; 3; 4; 5; 6]%Z.

Section Tables.

(** The two coefficient files, already parsed. *)
Variable hardy_hall_coefficients : list coef_row.
Variable hardy_pedersen_coefficients : list coef_row.

Definition hardy (mlat mlt : ndarray) (kp : pyobj) (hallOrPed : string)
  : result ret :=
  assert (str_in (lower hallOrPed) channels)
    "hardy: Must select one of 'h', 'p', or 'hp' for hallOrPed!" ;;;
  assert (in_ints kp kp_levels)
    "hardy: Kp must be an integer in the range 0-6" ;;;
  let mlat := array_ndmin1 (np_abs mlat) in
  let mlt := array_ndmin1 mlt in
  shape <- broadcast_shape (Np.shape mlat) (Np.shape mlt) ;;
  let mlat := flatten mlat in
  let mlt := flatten mlt in
  hall_conductance <-
    (if contains "h" (lower hallOrPed)
     then c <- hardy_channel hardy_hall_coefficients mlat mlt kp ;; Ok (Some c)
     else Ok None) ;;
  pedersen_conductance <-
    (if contains "p" (lower hallOrPed)
     then c <- hardy_channel hardy_pedersen_coefficients mlat mlt kp ;;
          Ok (Some c)
     else Ok None) ;;
  if String.eqb (lower hallOrPed) "h" then
    c <- read_local hall_conductance ;;
    a <- reshape c shape ;; Ok (One a)
  else if String.eqb (lower hallOrPed) "p" then
    c <- read_local pedersen_conductance ;;
    a <- reshape c shape ;; Ok (One a)
  else
    ch <- read_local hall_conductance ;;
    ah <- reshape ch shape ;;
    cp <- read_local pedersen_conductance ;;
    ap <- reshape cp shape ;;
    Ok (Two ah ap).

End Tables.

End Hardy.

(** ** scipy: [interp1d] of kind linear with [fill_value='extrapolate'] *)

Module Scipy.

(** [np.searchsorted(x, v)] (side left) on an increasing [x]: the number
    of leading elements below [v]. *)
Fixpoint searchsorted (x : list R) (v : R) : nat :=
  match x with
  | [] => 0%nat
  | x0 :: x' => if Rlt_dec x0 v then S (searchsorted x' v) else 0%nat
  end.

(** [i.clip(lo, hi)] *)
Definition clip (i lo hi : nat) : nat := Nat.min (Nat.max i lo) hi.

(** Evaluation of the interpolant: the segment is chosen by
    [searchsorted] clipped to [1 .. len(x)-1], so that a point outside the
    grid is evaluated on the line through the first or the last two
    nodes. *)
Definition call_linear (x y : list R) (v : R) : R :=
  let hi := clip (searchsorted x v) 1 (List.length x - 1) in
  let lo := (hi - 1)%nat in
  let x_lo := nth lo x 0 in
  let x_hi := nth hi x 0 in
  let y_lo := nth lo y 0 in
  let y_hi := nth hi y 0 in
  let slope := (y_hi - y_lo) / (x_hi - x_lo) in
  slope * (v - x_lo) + y_lo.

(** The constructor checks that [x] and [y] have the same length. *)
Definition interp1d (x y : list R) : result (R -> R) :=
  if (List.length x =? List.length y)%nat then Ok (call_linear x y)
  else Raise ValueError.

End Scipy.

Import Scipy.

(** ** The EUV model: [EUV_conductance] *)

Module EUV.

(** [np.arange(start, stop, step)] with its number of elements [n]. *)
Definition np_arange (start step : R) (n : nat) : list R :=
  map (fun i => start + INR i * step) (seq 0 n).

(** [MODELSZAS = np.arange(0,120.1,0.1)]: 1201 nodes. *)
Definition MODELSZAS : list R := np_arange 0 0.1 1201.

(** An exponent written as an int or as a float literal. *)
Inductive exponent : Type :=
| ExpInt (n : nat)
| ExpFloat (y : R).

(** [x ** y] for a float exponent: the real power for a positive base
    and 0 for base 0 (the exponents here are positive).  For a negative
    base Python's [**] on floats gives a complex number and numpy's a
    nan, neither of which the model represents: the value 0 given here
    is a convention, and the theorems that state a value of a power
    assume a non-negative base. *)
Definition fpow (x y : R) : R :=
  if Rlt_dec 0 x then Rpower x y else 0.

Definition np_power (x : R) (e : exponent) : R :=
  match e with
  | ExpInt n => x ^ n
  | ExpFloat y => fpow x y
  end.

Definition calibrations : list string :=
  ["MoenBrekke1993"; "MoenBrekke1993_alt"; "Cousinsetal2015"]%string.

Definition defcal : string := "MoenBrekke1993"%string.

(** The locals that the first chain of branches binds. *)
Record calib : Type := mk_calib {
  f107pedexponent : local R;
  f107hallexponent : local R;
  PedScl : local R;
  HalScl : local R;
  pedexponent : local exponent;
  hallexponent : local exponent
}.

Definition calib_of (calibration : string) : calib :=
  if String.eqb calibration "MoenBrekke1993" then
    mk_calib (Some 0.49) (Some 0.53) None None None None
  else if String.eqb calibration "MoenBrekke1993_alt" then
    mk_calib (Some 0.49) (Some 0.53) (Some 1.27) (Some 1.35)
             (Some (ExpFloat 0.65)) (Some (ExpFloat 0.79))
  else if String.eqb calibration "Cousinsetal2015" then
    mk_calib (Some 0.667) (Some 0.5) (Some 0.5) (Some 1.8)
             (Some (ExpFloat 0.667)) (Some (ExpInt 1))
  else
    mk_calib None None None None None None.

(** [a[a < 0] = 0] *)
Definition clamp0 (a : list R) : list R :=
  map (fun s => if Rltb s 0 then 0 else s) a.

(** [f"Invalid calibration: {calibration}. Using {defcal}"] *)
Definition invalid_calibration_msg (calibration : string) : string :=
  ("Invalid calibration: " ++ calibration ++ ". Using " ++ defcal)%string.

Section Production.

(** [PRODUCTION = np.loadtxt(PRODUCTIONFILE)] *)
Variable PRODUCTION : list R.

(** The array handed to [interp1d] for the Hall channel (the second
    chain of branches).  [np.sqrt] of a negative production value is
    nan; [sqrt] is 0 there. *)
Definition hall_scaled (F107 : R) (calibration : string) (c : calib)
  : result (list R) :=
  if String.eqb calibration "MoenBrekke1993" then
    e <- read_local (f107hallexponent c) ;;
    Ok (map (fun P => fpow F107 e * (0.81 * P + 0.54 * sqrt P)) PRODUCTION)
  else
    e <- read_local (f107hallexponent c) ;;
    scl <- read_local (HalScl c) ;;
    he <- read_local (hallexponent c) ;;
    Ok (map (fun P => fpow F107 e * scl * np_power P he) PRODUCTION).

(** The array handed to [interp1d] for the Pedersen channel. *)
Definition ped_scaled (F107 : R) (calibration : string) (c : calib)
  : result (list R) :=
  if String.eqb calibration "MoenBrekke1993" then
    e <- read_local (f107pedexponent c) ;;
    Ok (map (fun P => fpow F107 e * (0.34 * P + 0.93 * sqrt P)) PRODUCTION)
  else
    e <- read_local (f107pedexponent c) ;;
    scl <- read_local (PedScl c) ;;
    pe <- read_local (pedexponent c) ;;
    Ok (map (fun P => fpow F107 e * scl * np_power P pe) PRODUCTION).

(** [sigh = halinterp(sza)]: the interpolant applied to every element. *)
Definition interpolate (y : result (list R)) (sza : ndarray)
  : result (list R) :=
  y <- y ;;
  f <- interp1d MODELSZAS y ;;
  Ok (map f (data sza)).

(** The function after the calibration name has been settled. *)
Definition EUV_body (sza : ndarray) (F107 : R) (getH getP : bool)
  (calibration : string) : result ret :=
  let shape := Np.shape sza in
  let c := calib_of calibration in
  sigh <- (if getH
           then s <- interpolate (hall_scaled F107 calibration c) sza ;;
                Ok (Some s)
           else Ok None) ;;
  sigp <- (if getP
           then s <- interpolate (ped_scaled F107 calibration c) sza ;;
                Ok (Some s)
           else Ok None) ;;
  if getH && getP then
    h <- read_local sigh ;;
    p <- read_local sigp ;;
    ah <- reshape (clamp0 h) shape ;;
    ap <- reshape (clamp0 p) shape ;;
    Ok (Two ah ap)
  else if getH then
    h <- read_local sigh ;;
    a <- reshape (clamp0 h) shape ;; Ok (One a)
  else if getP then
    p <- read_local sigp ;;
    a <- reshape (clamp0 p) shape ;; Ok (One a)
  else Ok RetNone.

(** [EUV_conductance]: what it prints and what it returns or raises. *)
Definition EUV_conductance (sza : ndarray) (F107 : R) (hallOrPed : string)
  (calibration : string) : list string * result ret :=
  match assert (str_in (lower hallOrPed) Hardy.channels)
          "EUV_conductance: Must select one of 'h', 'p', or 'hp' for hallOrPed!"
  with
  | Raise e => ([], Raise e)
  | Ok _ =>
      let getH := contains "h" (lower hallOrPed) in
      let getP := contains "p" (lower hallOrPed) in
      if negb (str_in calibration calibrations)
      then ([invalid_calibration_msg calibration],
            EUV_body sza F107 getH getP defcal)
      else ([], EUV_body sza F107 getH getP calibration)
  end.

End Production.

End EUV.

(** ** The combiner: [hardy_EUV] *)

Module Combiner.

Import Hardy EUV.

(** [datetime]; the function itself reads only [time.year]. *)
Record datetime : Type := mk_datetime {
  year : Z; month : Z; day : Z; hour : Z; minute : Z; second : Z
}.

Definition hop_tokens : list string :=
  ["hall"; "h"; "pedersen"; "p"; "hp"; "hallandpedersen"]%string.

(** The three [if] statements that bind [hop]. *)
Definition hop_of (hall_or_pedersen : string) : local string :=
  let s := lower hall_or_pedersen in
  let hop := None in
  let hop := if contains s "hall" then Some "h"%string else hop in
  let hop := if contains s "pedersen" then Some "p"%string else hop in
  let hop := if str_in s ["hp"; "hallandpedersen"]%string
             then Some "hp"%string else hop in
  hop.

(** A flat array as [hardy] and [EUV_conductance] receive it. *)
Definition flat (xs : list R) : ndarray := mk_ndarray [List.length xs] xs.

(** [(hc + EUV + starlight).reshape(shape)] *)
Definition total (hc EUV : ndarray) (starlight : R) (shape : list nat)
  : result ndarray :=
  s1 <- np_add (Arr (data hc)) (Arr (data EUV)) ;;
  s2 <- np_add s1 (Scalar starlight) ;;
  xs <- as_array s2 ;;
  reshape xs shape.

Section Collaborators.

Variable hardy_hall_coefficients : list coef_row.
Variable hardy_pedersen_coefficients : list coef_row.
Variable PRODUCTION : list R.

(** [Dipole(epoch)] with its methods, and [sunlight.sza]. *)
Variable geo2mag : Z -> list R -> list R -> result (list R * list R).
Variable mag2geo : Z -> list R -> list R -> result (list R * list R).
Variable mlon2mlt : Z -> list R -> datetime -> result (list R).
Variable sunlight_sza : list R -> list R -> datetime -> result (list R).

(** Everything up to the call of [EUV_conductance]: the broadcast shape
    and the derived [mlat], [mlt], [sza] and [hop]. *)
Definition prepare (lon lat : ndarray) (time : datetime)
  (hall_or_pedersen : string) (dipole : bool)
  : result (list nat * list R * list R * list R * string) :=
  assert (str_in (lower hall_or_pedersen) hop_tokens)
    "hardy_EUV: hall_or_pedersen must be either hall or pedersen, or hallandpedersen" ;;;
  let lat := array_ndmin1 lat in
  let lon := array_ndmin1 lon in
  shape <- broadcast_shape (Np.shape lat) (Np.shape lon) ;;
  let lat := flatten lat in
  let lon := flatten lon in
  let cd := year time in
  frames <-
    (if dipole
     then geo <- mag2geo cd lat lon ;; Ok (lat, lon, fst geo, snd geo)
     else mag <- geo2mag cd lat lon ;; Ok (fst mag, snd mag, lat, lon)) ;;
  let '(mlat, mlon, lat, lon) := frames in
  mlt <- mlon2mlt cd mlon time ;;
  sza <- sunlight_sza lat lon time ;;
  hop <- read_local (hop_of hall_or_pedersen) ;;
  Ok (shape, mlat, mlt, sza, hop).

(** The part after the call of [EUV_conductance]. *)
Definition combine_models (euv : ret) (shape : list nat) (mlat mlt : list R)
  (kp : pyobj) (hop : string) (starlight : R) : result ret :=
  hc <- hardy hardy_hall_coefficients hardy_pedersen_coefficients
          (flat mlat) (flat mlt) kp "hp" ;;
  match hc with
  | Two hc_hall hc_pedersen =>
      if String.eqb hop "h" then
        match euv with
        | One EUV => a <- total hc_hall EUV starlight shape ;; Ok (One a)
        | _ => Raise TypeError
        end
      else if String.eqb hop "p" then
        match euv with
        | One EUV => a <- total hc_pedersen EUV starlight shape ;; Ok (One a)
        | _ => Raise TypeError
        end
      else
        match euv with
        | Two EUVh EUVp =>
            ah <- total hc_hall EUVh starlight shape ;;
            ap <- total hc_pedersen EUVp starlight shape ;;
            Ok (Two ah ap)
        | _ => Raise TypeError
        end
  | _ => Raise TypeError
  end.

(** [hardy_EUV]: what it prints and what it returns or raises. *)
Definition hardy_EUV (lon lat : ndarray) (kp : pyobj) (time : datetime)
  (hall_or_pedersen : string) (starlight F107 : R) (dipole : bool)
  (calibration : string) : list string * result ret :=
  match prepare lon lat time hall_or_pedersen dipole with
  | Raise e => ([], Raise e)
  | Ok (shape, mlat, mlt, sza, hop) =>
      let '(out, euv) :=
        EUV_conductance PRODUCTION (flat sza) F107 hop calibration in
      (out, euv <- euv ;;
            combine_models euv shape mlat mlt kp hop starlight)
  end.

End Collaborators.

End Combiner.

(** * Properties *)

(** ** Broadcasting, seen sample by sample *)

Module BroadcastFacts.

Lemma combine_map_same {X A B : Type} (g : X -> A) (h : X -> B) (xs : list X) :
  combine (map g xs) (map h xs) = map (fun x => (g x, h x)) xs.
Proof.
  induction xs as [|x xs IH]; simpl; [reflexivity | now rewrite IH].
Qed.

Lemma np_bin_full_full {X A B C : Type} (f : A -> B -> C) g h (xs : list X) :
  np_bin f (Arr (map g xs)) (Arr (map h xs))
  = Ok (Arr (map (fun x => f (g x) (h x)) xs)).
Proof.
  destruct xs as [|x [|x' l]]; try reflexivity.
  unfold np_bin.
  change (map g (x :: x' :: l)) with (g x :: g x' :: map g l) at 1.
  change (map h (x :: x' :: l)) with (h x :: h x' :: map h l) at 1.
  cbv iota beta.
  change (g x :: g x' :: map g l) with (map g (x :: x' :: l)).
  change (h x :: h x' :: map h l) with (map h (x :: x' :: l)).
  rewrite !length_map, Nat.eqb_refl, combine_map_same, map_map.
  reflexivity.
Qed.

Lemma np_bin_full_one {X A B C : Type} (f : A -> B -> C) g h c (xs : list X) :
  (forall x, In x xs -> h x = c) ->
  np_bin f (Arr (map g xs)) (Arr [c])
  = Ok (Arr (map (fun x => f (g x) (h x)) xs)).
Proof.
  intros H.
  destruct xs as [|x [|x' l]].
  - reflexivity.
  - simpl. rewrite (H x) by (left; reflexivity). reflexivity.
  - unfold np_bin.
    change (map g (x :: x' :: l)) with (g x :: g x' :: map g l) at 1.
    cbv iota beta.
    change (g x :: g x' :: map g l) with (map g (x :: x' :: l)).
    rewrite map_map. do 2 f_equal.
    apply map_ext_in. intros y Hy. now rewrite H.
Qed.

Lemma np_bin_one_full {X A B C : Type} (f : A -> B -> C) g h c (xs : list X) :
  (forall x, In x xs -> g x = c) ->
  np_bin f (Arr [c]) (Arr (map h xs))
  = Ok (Arr (map (fun x => f (g x) (h x)) xs)).
Proof.
  intros H. unfold np_bin. rewrite map_map. do 2 f_equal.
  apply map_ext_in. intros y Hy. now rewrite H.
Qed.

Section Rep.

Context {X : Type}.
Variable xs : list X.

(** [rep b u g]: the array [u] holds the values of [g] along the samples
    [xs]; either one value per sample ([b = true]) or a single value that
    [g] takes at all of them ([b = false]), to be stretched. *)
Definition rep {A : Type} (b : bool) (u : nd A) (g : X -> A) : Prop :=
  if b then u = Arr (map g xs)
  else exists c, u = Arr [c] /\ forall x, In x xs -> g x = c.

Lemma rep_ext {A : Type} b (u : nd A) g g' :
  (forall x, In x xs -> g x = g' x) -> rep b u g -> rep b u g'.
Proof.
  intros E. destruct b; simpl.
  - intros ->. f_equal. now apply map_ext_in.
  - intros (c & -> & H). exists c. split; [reflexivity|].
    intros x Hx. rewrite <- E by assumption. now apply H.
Qed.

(** Two arrays. *)
Lemma np_bin_rep {A B C : Type} (f : A -> B -> C) b1 b2 u v g h :
  rep b1 u g -> rep b2 v h ->
  exists w, np_bin f u v = Ok w /\ rep (b1 || b2) w (fun x => f (g x) (h x)).
Proof.
  destruct b1, b2; simpl.
  - intros -> ->. eexists. split; [apply np_bin_full_full | reflexivity].
  - intros -> (c & -> & H).
    exists (Arr (map (fun x => f (g x) (h x)) xs)). split;
      [now apply np_bin_full_one | reflexivity].
  - intros (c & -> & H) ->.
    exists (Arr (map (fun x => f (g x) (h x)) xs)). split;
      [now apply np_bin_one_full | reflexivity].
  - intros (c & -> & Hc) (d & -> & Hd). eexists. split; [reflexivity|].
    exists (f c d). split; [reflexivity|].
    intros x Hx. now rewrite Hc, Hd.
Qed.

(** A scalar on the left. *)
Lemma np_bin_scalar_l {A B C : Type} (f : A -> B -> C) b c v h :
  rep b v h ->
  exists w, np_bin f (Scalar c) v = Ok w /\ rep b w (fun x => f c (h x)).
Proof.
  destruct b; simpl.
  - intros ->. eexists. split; [reflexivity|]. now rewrite map_map.
  - intros (d & -> & Hd). eexists. split; [reflexivity|].
    exists (f c d). split; [reflexivity|]. intros x Hx. now rewrite Hd.
Qed.

(** A scalar on the right. *)
Lemma np_bin_scalar_r {A B C : Type} (f : A -> B -> C) b u g c :
  rep b u g ->
  exists w, np_bin f u (Scalar c) = Ok w /\ rep b w (fun x => f (g x) c).
Proof.
  destruct b; simpl.
  - intros ->. eexists. split; [reflexivity|]. now rewrite map_map.
  - intros (d & -> & Hd). eexists. split; [reflexivity|].
    exists (f d c). split; [reflexivity|]. intros x Hx. now rewrite Hd.
Qed.

Lemma np_un_rep {A B : Type} (k : A -> B) b u g :
  rep b u g -> rep b (np_un k u) (fun x => k (g x)).
Proof.
  destruct b; simpl.
  - intros ->. simpl. now rewrite map_map.
  - intros (d & -> & Hd). exists (k d). split; [reflexivity|].
    intros x Hx. now rewrite Hd.
Qed.

Lemma rep_is_array {A : Type} b (u : nd A) g :
  rep b u g -> exists a, u = Arr a.
Proof.
  destruct b; simpl; [intros ->|intros (c & -> & _)]; eexists; reflexivity.
Qed.

(** Division is numpy's as soon as the dividend is an array. *)
Lemma np_div_rep b1 b2 u v g h :
  rep b1 u g -> rep b2 v h ->
  exists w, np_div u v = Ok w /\ rep (b1 || b2) w (fun x => g x / h x).
Proof.
  intros Hu Hv. destruct (rep_is_array _ _ _ Hu) as [a ->].
  change (np_div (Arr a) v) with (np_bin Rdiv (Arr a) v).
  now apply np_bin_rep.
Qed.

Lemma np_div_scalar_r b u g c :
  rep b u g ->
  exists w, np_div u (Scalar c) = Ok w /\ rep b w (fun x => g x / c).
Proof.
  intros Hu. destruct (rep_is_array _ _ _ Hu) as [a ->].
  change (np_div (Arr a) (Scalar c)) with (np_bin Rdiv (Arr a) (Scalar c)).
  now apply np_bin_scalar_r.
Qed.

Lemma setitem_full (c : R) g (m : X -> bool) :
  setitem (Arr (map g xs)) (Arr (map m xs)) c
  = Ok (Arr (map (fun x => if m x then c else g x) xs)).
Proof.
  unfold setitem. rewrite !length_map, Nat.eqb_refl.
  now rewrite combine_map_same, map_map.
Qed.

End Rep.

Lemma combine_pair_fst {A B : Type} (l1 : list A) (l2 : list B) :
  List.length l1 = List.length l2 ->
  map fst (map (fun p => (fst p, snd p)) (combine l1 l2)) = l1.
Proof.
  revert l2. induction l1 as [|z l1 IH]; intros [|w l2] E;
    simpl in *; try discriminate; [reflexivity|].
  f_equal. apply IH. lia.
Qed.

Lemma combine_pair_snd {A B : Type} (l1 : list A) (l2 : list B) :
  List.length l1 = List.length l2 ->
  map snd (map (fun p => (fst p, snd p)) (combine l1 l2)) = l2.
Proof.
  revert l2. induction l1 as [|z l1 IH]; intros [|w l2] E;
    simpl in *; try discriminate; [reflexivity|].
  f_equal. apply IH. lia.
Qed.

(** The samples of two arrays that broadcast against each other. *)
Lemma pairs_rep (a b : list R) (xs : list (R * R)) :
  np_bin pair (Arr a) (Arr b) = Ok (Arr xs) ->
  exists b1 b2, b1 || b2 = true /\
    rep xs b1 (Arr a) fst /\ rep xs b2 (Arr b) snd.
Proof.
  unfold np_bin.
  destruct a as [|x [|x' a']].
  - destruct b as [|y [|y' b']]; simpl; intros E; inversion E; subst.
    + exists true, true. repeat split.
    + exists true, false. repeat split. exists y. split; [reflexivity|].
      intros ? [].
  - intros E. inversion E; subst. exists false, true. split; [reflexivity|].
    split.
    + exists x. split; [reflexivity|]. intros p Hp.
      apply in_map_iff in Hp. destruct Hp as (y & <- & _). reflexivity.
    + simpl. rewrite map_map. simpl. now rewrite map_id.
  - destruct b as [|y [|y' b']].
    + simpl. intros E; inversion E.
    + intros E. inversion E; subst. exists true, false.
      split; [reflexivity|]. split.
      * simpl. f_equal. f_equal. f_equal. rewrite map_map. simpl.
        now rewrite map_id.
      * exists y. split; [reflexivity|]. intros p Hp.
        change ((x, y) :: (x', y) :: map (fun x0 : R => (x0, y)) a')
          with (map (fun x0 : R => (x0, y)) (x :: x' :: a')) in Hp.
        apply in_map_iff in Hp. destruct Hp as (z & <- & _). reflexivity.
    + destruct (Nat.eqb_spec (List.length (x :: x' :: a'))
                             (List.length (y :: y' :: b'))) as [E|E];
        [|intros H; inversion H].
      intros H. injection H as <-.
      exists true, true. split; [reflexivity|].
      unfold rep. split; f_equal; symmetry.
      * exact (combine_pair_fst (x :: x' :: a') (y :: y' :: b') E).
      * exact (combine_pair_snd (x :: x' :: a') (y :: y' :: b') E).
Qed.

End BroadcastFacts.

(** ** The Hardy model, sample by sample *)

Module HardyFacts.

Import Hardy BroadcastFacts.

Lemma bind_ok {A B : Type} (m : result A) (k : A -> result B) a :
  m = Ok a -> bind m k = k a.
Proof. now intros ->. Qed.

Lemma bind_inv {A B : Type} (m : result A) (k : A -> result B) b :
  bind m k = Ok b -> exists a, m = Ok a /\ k a = Ok b.
Proof. destruct m as [a|e]; simpl; [eauto | discriminate]. Qed.

(** One use of a lemma of the form [exists w, m = Ok w /\ P w] at the
    head of a chain of binds. *)
Ltac run L :=
  let w := fresh "w" in
  let E := fresh "E" in
  let H := fresh "H" in
  destruct L as (w & E & H); rewrite (bind_ok _ _ _ E); clear E.

(** The harmonic of a row at magnetic local time [t]:
    [trig(n * mlt / 12 * pi)]. *)
Definition harmonic (row : parsed_row) (t : R) : R :=
  snd (snd row) (IZR (fst (snd row)) * t / 12 * PI).

(** The Fourier series of one Epstein parameter at [t]: the sum over the
    rows of coefficient times harmonic. *)
Fixpoint fourier_sum (coef : coef_row -> R) (rows : list parsed_row) (t : R)
  : R :=
  match rows with
  | [] => 0
  | row :: rows' => coef (fst row) * harmonic row t + fourier_sum coef rows' t
  end.

(** The Epstein transition function at one sample. *)
Definition epstein_pt (r S1 S2 h0 mlat : R) : R :=
  r + S1 * (mlat - h0) +
  (S2 - S1) * ln ((1 - S1 / (S2 * exp (- (mlat - h0)))) / (1 - S1 / S2)).

(** The floors at one sample. *)
Definition floor_pt (mlat h0 c : R) : R :=
  let c1 := if Rltb mlat h0 && Rltb c 0 then 0 else c in
  if Rltb h0 mlat && Rltb c1 0.55 then 0.55 else c1.

(** The four parameters and the conductance before and after the floors
    at the sample (mlat, mlt) = [p]. *)
Definition maxlatitude_at (rows : list parsed_row) (p : R * R) : R :=
  fourier_sum maxlatitude rows (snd p).

Definition prefloor_at (rows : list parsed_row) (p : R * R) : R :=
  epstein_pt (fourier_sum maxvalue rows (snd p))
             (fourier_sum up_slope rows (snd p))
             (fourier_sum down_slope rows (snd p))
             (fourier_sum maxlatitude rows (snd p))
             (fst p).

Definition conductance_at (rows : list parsed_row) (p : R * R) : R :=
  floor_pt (fst p) (maxlatitude_at rows p) (prefloor_at rows p).

Section Samples.

Context {X : Type}.
Variable xs : list X.
Variable tau : X -> R.

Lemma fourier_term_rep b mlt coef trig n :
  rep xs b mlt tau ->
  exists w, fourier_term coef trig n mlt = Ok w /\
    rep xs b w (fun x => coef * trig (IZR n * tau x / 12 * PI)).
Proof.
  intros Hm. unfold fourier_term.
  run (np_bin_scalar_l xs Rmult b (IZR n) mlt tau Hm).
  run (np_div_scalar_r xs b w _ 12 H).
  run (np_bin_scalar_r xs Rmult b w0 _ PI H0).
  apply np_bin_scalar_l. now apply (np_un_rep xs trig) in H1.
Qed.

(** One row added to accumulators that are arrays already. *)
Lemma add_row_rep b mlt e row g1 g2 g3 g4 :
  rep xs b mlt tau ->
  rep xs b (ep_maxvalue e) g1 -> rep xs b (ep_maxlatitude e) g2 ->
  rep xs b (ep_up_slope e) g3 -> rep xs b (ep_down_slope e) g4 ->
  exists e', add_row mlt e row = Ok e' /\
    rep xs b (ep_maxvalue e')
      (fun x => g1 x + maxvalue (fst row) * harmonic row (tau x)) /\
    rep xs b (ep_maxlatitude e')
      (fun x => g2 x + maxlatitude (fst row) * harmonic row (tau x)) /\
    rep xs b (ep_up_slope e')
      (fun x => g3 x + up_slope (fst row) * harmonic row (tau x)) /\
    rep xs b (ep_down_slope e')
      (fun x => g4 x + down_slope (fst row) * harmonic row (tau x)).
Proof.
  intros Hm H1 H2 H3 H4. unfold add_row, np_add.
  run (fourier_term_rep b mlt (maxvalue (fst row)) (snd (snd row))
         (fst (snd row)) Hm).
  run (np_bin_rep xs Rplus b b _ _ _ _ H1 H).
  run (fourier_term_rep b mlt (maxlatitude (fst row)) (snd (snd row))
         (fst (snd row)) Hm).
  run (np_bin_rep xs Rplus b b _ _ _ _ H2 H5).
  run (fourier_term_rep b mlt (up_slope (fst row)) (snd (snd row))
         (fst (snd row)) Hm).
  run (np_bin_rep xs Rplus b b _ _ _ _ H3 H7).
  run (fourier_term_rep b mlt (down_slope (fst row)) (snd (snd row))
         (fst (snd row)) Hm).
  run (np_bin_rep xs Rplus b b _ _ _ _ H4 H9).
  rewrite Bool.orb_diag in *.
  eexists. split; [reflexivity|]. simpl. repeat split; assumption.
Qed.

(** The first row, added to the initial integers 0. *)
Lemma add_row_init b mlt row :
  rep xs b mlt tau ->
  exists e', add_row mlt epstein_init row = Ok e' /\
    rep xs b (ep_maxvalue e')
      (fun x => 0 + maxvalue (fst row) * harmonic row (tau x)) /\
    rep xs b (ep_maxlatitude e')
      (fun x => 0 + maxlatitude (fst row) * harmonic row (tau x)) /\
    rep xs b (ep_up_slope e')
      (fun x => 0 + up_slope (fst row) * harmonic row (tau x)) /\
    rep xs b (ep_down_slope e')
      (fun x => 0 + down_slope (fst row) * harmonic row (tau x)).
Proof.
  intros Hm. unfold add_row, np_add, epstein_init. simpl.
  run (fourier_term_rep b mlt (maxvalue (fst row)) (snd (snd row))
         (fst (snd row)) Hm).
  run (np_bin_scalar_l xs Rplus b 0 _ _ H).
  run (fourier_term_rep b mlt (maxlatitude (fst row)) (snd (snd row))
         (fst (snd row)) Hm).
  run (np_bin_scalar_l xs Rplus b 0 _ _ H1).
  run (fourier_term_rep b mlt (up_slope (fst row)) (snd (snd row))
         (fst (snd row)) Hm).
  run (np_bin_scalar_l xs Rplus b 0 _ _ H3).
  run (fourier_term_rep b mlt (down_slope (fst row)) (snd (snd row))
         (fst (snd row)) Hm).
  run (np_bin_scalar_l xs Rplus b 0 _ _ H5).
  eexists. split; [reflexivity|]. simpl. repeat split; assumption.
Qed.

Lemma iterrows_rep b mlt rows : forall e g1 g2 g3 g4,
  rep xs b mlt tau ->
  rep xs b (ep_maxvalue e) g1 -> rep xs b (ep_maxlatitude e) g2 ->
  rep xs b (ep_up_slope e) g3 -> rep xs b (ep_down_slope e) g4 ->
  exists e', iterrows mlt rows e = Ok e' /\
    rep xs b (ep_maxvalue e')
      (fun x => g1 x + fourier_sum maxvalue rows (tau x)) /\
    rep xs b (ep_maxlatitude e')
      (fun x => g2 x + fourier_sum maxlatitude rows (tau x)) /\
    rep xs b (ep_up_slope e')
      (fun x => g3 x + fourier_sum up_slope rows (tau x)) /\
    rep xs b (ep_down_slope e')
      (fun x => g4 x + fourier_sum down_slope rows (tau x)).
Proof.
  induction rows as [|row rows IH]; intros e g1 g2 g3 g4 Hm H1 H2 H3 H4.
  - exists e. split; [reflexivity|]. simpl.
    repeat split; eapply rep_ext; try eassumption; intros; simpl; lra.
  - simpl.
    destruct (add_row_rep b mlt e row g1 g2 g3 g4 Hm H1 H2 H3 H4)
      as (e1 & E1 & K1 & K2 & K3 & K4).
    rewrite (bind_ok _ _ _ E1).
    destruct (IH e1 _ _ _ _ Hm K1 K2 K3 K4) as (e2 & E2 & L1 & L2 & L3 & L4).
    exists e2. split; [assumption|].
    repeat split; eapply rep_ext; try eassumption; intros; simpl; lra.
Qed.

(** The whole loop over at least one row: every parameter is the array
    of its Fourier series. *)
Lemma iterrows_series b mlt row rows :
  rep xs b mlt tau ->
  exists e', iterrows mlt (row :: rows) epstein_init = Ok e' /\
    rep xs b (ep_maxvalue e')
      (fun x => fourier_sum maxvalue (row :: rows) (tau x)) /\
    rep xs b (ep_maxlatitude e')
      (fun x => fourier_sum maxlatitude (row :: rows) (tau x)) /\
    rep xs b (ep_up_slope e')
      (fun x => fourier_sum up_slope (row :: rows) (tau x)) /\
    rep xs b (ep_down_slope e')
      (fun x => fourier_sum down_slope (row :: rows) (tau x)).
Proof.
  intros Hm. simpl iterrows.
  destruct (add_row_init b mlt row Hm) as (e1 & E1 & K1 & K2 & K3 & K4).
  rewrite (bind_ok _ _ _ E1).
  destruct (iterrows_rep b mlt rows e1 _ _ _ _ Hm K1 K2 K3 K4)
    as (e2 & E2 & L1 & L2 & L3 & L4).
  exists e2. split; [assumption|].
  repeat split; eapply rep_ext; try eassumption; intros; simpl; lra.
Qed.

Lemma epstein_transition_rep bm bp mlat r S1 S2 h0 alpha rho s1 s2 eta :
  bm || bp = true ->
  rep xs bm mlat alpha ->
  rep xs bp r rho -> rep xs bp S1 s1 -> rep xs bp S2 s2 -> rep xs bp h0 eta ->
  exists w, epstein_transition r S1 S2 h0 mlat = Ok w /\
    rep xs true w
      (fun x => epstein_pt (rho x) (s1 x) (s2 x) (eta x) (alpha x)).
Proof.
  intros Hb Hm Hr H1 H2 Hh.
  unfold epstein_transition, np_sub, np_mul, np_add.
  run (np_bin_rep xs Rminus _ _ _ _ _ _ Hm Hh).
  run (np_bin_rep xs Rmult _ _ _ _ _ _ H1 H).
  run (np_bin_rep xs Rplus _ _ _ _ _ _ Hr H0).
  run (np_bin_rep xs Rminus _ _ _ _ _ _ H2 H1).
  run (np_bin_rep xs Rminus _ _ _ _ _ _ Hm Hh).
  apply (np_un_rep xs Ropp) in H5. apply (np_un_rep xs exp) in H5.
  run (np_bin_rep xs Rmult _ _ _ _ _ _ H2 H5).
  run (np_div_rep xs _ _ _ _ _ _ H1 H6).
  run (np_bin_scalar_l xs Rminus _ 1 _ _ H7).
  run (np_div_rep xs _ _ _ _ _ _ H1 H2).
  run (np_bin_scalar_l xs Rminus _ 1 _ _ H9).
  run (np_div_rep xs _ _ _ _ _ _ H8 H10).
  apply (np_un_rep xs ln) in H11.
  run (np_bin_rep xs Rmult _ _ _ _ _ _ H4 H11).
  destruct (np_bin_rep xs Rplus _ _ _ _ _ _ H3 H12) as (w' & E & K).
  exists w'. split; [exact E|].
  destruct bm, bp; try discriminate; exact K.
Qed.

Lemma floors_rep bm bp mlat h0 c alpha eta gamma :
  bm || bp = true ->
  rep xs bm mlat alpha -> rep xs bp h0 eta -> rep xs true c gamma ->
  exists w, floors mlat h0 c = Ok w /\
    rep xs true w (fun x => floor_pt (alpha x) (eta x) (gamma x)).
Proof.
  intros Hb Hm Hh Hc. unfold floors, np_lt, np_gt, np_and.
  run (np_bin_rep xs Rltb _ _ _ _ _ _ Hm Hh).
  run (np_bin_scalar_r xs Rltb _ _ _ 0 Hc).
  run (np_bin_rep xs andb _ _ _ _ _ _ H H0).
  rewrite Hb in H1. simpl in H1, Hc. subst w1 c.
  rewrite (bind_ok _ _ _ (setitem_full xs 0 _ _)).
  run (np_bin_rep xs (fun x y => Rltb y x) _ _ _ _ _ _ Hm Hh).
  match goal with
  | |- context [np_bin Rltb (Arr (map ?g xs)) (Scalar 0.55)] =>
      run (np_bin_scalar_r xs Rltb true (Arr (map g xs)) g 0.55 eq_refl)
  end.
  run (np_bin_rep xs andb _ _ _ _ _ _ H1 H2).
  rewrite Hb in H3. simpl in H3. subst w3.
  rewrite setitem_full.
  eexists. split; [reflexivity|]. reflexivity.
Qed.

End Samples.

(** Whether two arrays broadcast depends on their lengths alone. *)
Lemma np_bin_raise_len {A B C A' B' C' : Type} (f : A -> B -> C)
  (f' : A' -> B' -> C') a b a' b' e :
  np_bin f (Arr a) (Arr b) = Raise e ->
  List.length a' = List.length a -> List.length b' = List.length b ->
  np_bin f' (Arr a') (Arr b') = Raise ValueError.
Proof.
  unfold np_bin.
  destruct a as [|x [|x2 a]]; destruct b as [|y [|y2 b]];
    destruct a' as [|x' [|x2' a']]; destruct b' as [|y' [|y2' b']];
    simpl; intros H Ea Eb; try discriminate; try reflexivity.
  injection Ea as Ea. injection Eb as Eb. rewrite Ea, Eb.
  destruct (List.length a =? List.length b)%nat; [discriminate|reflexivity].
Qed.

(** The samples of a call: the pairs (mlat, mlt) after broadcasting. *)
Definition samples (mlat mlt : list R) : result (nd (R * R)) :=
  np_bin pair (Arr mlat) (Arr mlt).

(** With at least one selected row and arrays that broadcast, the block
    returns the floored Epstein conductance of every sample. *)
Lemma hardy_channel_ok table mlat mlt kp row rows xs :
  derived_columns (select_kp table kp) = Ok (row :: rows) ->
  samples mlat mlt = Ok (Arr xs) ->
  hardy_channel table mlat mlt kp
  = Ok (map (conductance_at (row :: rows)) xs).
Proof.
  intros Hd Hs. unfold hardy_channel. cbv zeta. rewrite (bind_ok _ _ _ Hd).
  destruct (pairs_rep _ _ _ Hs) as (b1 & b2 & Hb & Ha & Ht).
  destruct (iterrows_series xs snd b2 (Arr mlt) row rows Ht)
    as (e & Ee & K1 & K2 & K3 & K4).
  rewrite (bind_ok _ _ _ Ee).
  destruct (epstein_transition_rep xs b1 b2 _ _ _ _ _ _ _ _ _ _
              Hb Ha K1 K3 K4 K2) as (c & Ec & Hc).
  rewrite (bind_ok _ _ _ Ec).
  destruct (floors_rep xs b1 b2 _ _ _ _ _ _ Hb Ha K2 Hc) as (c' & Ec' & Hc').
  rewrite (bind_ok _ _ _ Ec'). simpl in Hc'. subst c'. reflexivity.
Qed.

(** With no selected row the four parameters stay the integers 0 and
    the quotient [S1/S2] of the Epstein function raises. *)
Lemma hardy_channel_norows table mlat mlt kp :
  derived_columns (select_kp table kp) = Ok [] ->
  hardy_channel table mlat mlt kp = Raise ZeroDivisionError.
Proof.
  intros Hd. unfold hardy_channel. rewrite Hd. cbn [bind iterrows].
  unfold epstein_transition, np_sub, np_mul, np_add, np_div. simpl.
  destruct (Req_dec_T 0 0) as [_|N]; [reflexivity | now elim N].
Qed.

(** Arrays that do not broadcast raise at [mlat - h0]. *)
Lemma hardy_channel_mismatch table mlat mlt kp row rows e :
  derived_columns (select_kp table kp) = Ok (row :: rows) ->
  samples mlat mlt = Raise e ->
  hardy_channel table mlat mlt kp = Raise ValueError.
Proof.
  intros Hd Hs. unfold hardy_channel. cbv zeta. rewrite (bind_ok _ _ _ Hd).
  assert (Ht : rep mlt true (Arr mlt) (fun t => t))
    by (simpl; now rewrite map_id).
  destruct (iterrows_series mlt (fun t => t) true (Arr mlt) row rows Ht)
    as (e' & Ee & K1 & K2 & K3 & K4).
  rewrite (bind_ok _ _ _ Ee). simpl in K2.
  unfold epstein_transition, np_sub. rewrite K2.
  rewrite (np_bin_raise_len pair Rminus mlat mlt mlat (map _ mlt) e Hs);
    [reflexivity | reflexivity | apply length_map].
Qed.

Lemma samples_cases mlat mlt :
  (exists xs, samples mlat mlt = Ok (Arr xs)) \/
  samples mlat mlt = Raise ValueError.
Proof.
  unfold samples, np_bin.
  destruct mlat as [|x [|x2 a]]; destruct mlt as [|y [|y2 b]];
    try (left; eexists; reflexivity); try (now right).
  destruct (_ =? _)%nat; [left; eexists; reflexivity | now right].
Qed.

(** Every successful run of the block is of the first kind. *)
Lemma hardy_channel_inv table mlat mlt kp out :
  hardy_channel table mlat mlt kp = Ok out ->
  exists row rows xs,
    derived_columns (select_kp table kp) = Ok (row :: rows) /\
    samples mlat mlt = Ok (Arr xs) /\
    out = map (conductance_at (row :: rows)) xs.
Proof.
  intros H.
  destruct (derived_columns (select_kp table kp)) as [[|row rows]|e] eqn:Hd.
  - rewrite (hardy_channel_norows _ _ _ _ Hd) in H. discriminate.
  - destruct (samples_cases mlat mlt) as [[xs Hs]|Hs].
    + rewrite (hardy_channel_ok _ _ _ _ _ _ _ Hd Hs) in H.
      injection H as <-. now exists row, rows, xs.
    + rewrite (hardy_channel_mismatch _ _ _ _ _ _ _ Hd Hs) in H.
      discriminate.
  - unfold hardy_channel in H. rewrite Hd in H. discriminate.
Qed.

(** *** The function [hardy] in terms of its per-channel block *)

Lemma data_ndmin1 a : data (array_ndmin1 a) = data a.
Proof. unfold array_ndmin1. now destruct (Np.shape a). Qed.

Lemma flatten_abs mlat :
  flatten (array_ndmin1 (np_abs mlat)) = map Rabs (data mlat).
Proof. unfold flatten. now rewrite data_ndmin1. Qed.

Lemma flatten_ndmin1 a : flatten (array_ndmin1 a) = data a.
Proof. apply data_ndmin1. Qed.

(** [np.broadcast(mlat, mlt).shape] as [hardy] computes it. *)
Definition hardy_shape (mlat mlt : ndarray) : result (list nat) :=
  broadcast_shape (Np.shape (array_ndmin1 (np_abs mlat)))
                  (Np.shape (array_ndmin1 mlt)).

(** One channel of [hardy]: the block on the flattened inputs, reshaped. *)
Definition hardy_one (table : list coef_row) (mlat mlt : ndarray)
  (kp : pyobj) : result ndarray :=
  shape <- hardy_shape mlat mlt ;;
  c <- hardy_channel table (map Rabs (data mlat)) (data mlt) kp ;;
  reshape c shape.

Section Channels.

Variables H P : list coef_row.
Variables mlat mlt : ndarray.
Variable kp : pyobj.

Ltac freeze_hardy :=
  unfold hardy, hardy_one, hardy_shape; rewrite flatten_abs, flatten_ndmin1;
  generalize (in_ints kp kp_levels);
  generalize (broadcast_shape (Np.shape (array_ndmin1 (np_abs mlat)))
                              (Np.shape (array_ndmin1 mlt)));
  generalize (hardy_channel H (map Rabs (data mlat)) (data mlt) kp);
  generalize (hardy_channel P (map Rabs (data mlat)) (data mlt) kp);
  intros cp ch sh v; simpl; unfold assert.

Lemma hardy_h_iff a :
  hardy H P mlat mlt kp "h" = Ok (One a) <->
  in_ints kp kp_levels = true /\ hardy_one H mlat mlt kp = Ok a.
Proof.
  freeze_hardy.
  destruct v; simpl; [|split; intuition congruence].
  destruct sh as [sh|e]; simpl; [|split; intuition congruence].
  destruct ch as [c|e]; simpl; [|split; intuition congruence].
  destruct (reshape c sh) as [r|e]; simpl; [|split; intuition congruence].
  split; [intros E; injection E as <-; now split
        | intros [_ E]; injection E as <-; reflexivity].
Qed.

Lemma hardy_p_iff a :
  hardy H P mlat mlt kp "p" = Ok (One a) <->
  in_ints kp kp_levels = true /\ hardy_one P mlat mlt kp = Ok a.
Proof.
  freeze_hardy.
  destruct v; simpl; [|split; intuition congruence].
  destruct sh as [sh|e]; simpl; [|split; intuition congruence].
  destruct cp as [c|e]; simpl; [|split; intuition congruence].
  destruct (reshape c sh) as [r|e]; simpl; [|split; intuition congruence].
  split; [intros E; injection E as <-; now split
        | intros [_ E]; injection E as <-; reflexivity].
Qed.

Lemma hardy_hp_iff ah ap :
  hardy H P mlat mlt kp "hp" = Ok (Two ah ap) <->
  in_ints kp kp_levels = true /\
  hardy_one H mlat mlt kp = Ok ah /\ hardy_one P mlat mlt kp = Ok ap.
Proof.
  freeze_hardy.
  destruct v; simpl; [|split; intuition congruence].
  destruct sh as [sh|e]; simpl; [|split; intuition congruence].
  destruct ch as [c|e]; simpl; [|split; intuition congruence].
  destruct cp as [c'|e]; simpl; [|split; intuition congruence].
  destruct (reshape c sh) as [r|e]; simpl; [|split; intuition congruence].
  destruct (reshape c' sh) as [r'|e]; simpl; [|split; intuition congruence].
  split.
  - intros E; injection E as <- <-. now repeat split.
  - intros (_ & E1 & E2). injection E1 as <-. injection E2 as <-. reflexivity.
Qed.

(** A call with channel [h] or [p] never returns a pair, a call with
    channel [hp] always does. *)
Lemma hardy_h_one r :
  hardy H P mlat mlt kp "h" = Ok r -> exists a, r = One a.
Proof.
  unfold hardy. simpl. intros E.
  repeat (apply bind_inv in E; destruct E as (? & _ & E)).
  injection E as <-. eauto.
Qed.

Lemma hardy_p_one r :
  hardy H P mlat mlt kp "p" = Ok r -> exists a, r = One a.
Proof.
  unfold hardy. simpl. intros E.
  repeat (apply bind_inv in E; destruct E as (? & _ & E)).
  injection E as <-. eauto.
Qed.

Lemma hardy_hp_two r :
  hardy H P mlat mlt kp "hp" = Ok r -> exists ah ap, r = Two ah ap.
Proof.
  unfold hardy. simpl. intros E.
  repeat (apply bind_inv in E; destruct E as (? & _ & E)).
  injection E as <-. eauto.
Qed.

End Channels.

End HardyFacts.

(** ** The interpolant on and beyond the grid *)

Module InterpFacts.

Import EUV.

Lemma nth_arange start step n k :
  (k < n)%nat -> nth k (np_arange start step n) 0 = start + INR k * step.
Proof.
  intros Hk. unfold np_arange.
  rewrite (nth_indep _ 0 ((fun i => start + INR i * step) 0%nat))
    by (now rewrite length_map, length_seq).
  rewrite (map_nth (fun i => start + INR i * step)), seq_nth by assumption.
  reflexivity.
Qed.

Lemma length_arange start step n : List.length (np_arange start step n) = n.
Proof. unfold np_arange. now rewrite length_map, length_seq. Qed.

(** On an increasing grid the search returns the index of a node. *)
Lemma searchsorted_node (g : nat -> R) n : forall s k,
  (forall i j, (i < j)%nat -> g i < g j) ->
  (s <= k < s + n)%nat ->
  searchsorted (map g (seq s n)) (g k) = (k - s)%nat.
Proof.
  induction n as [|n IH]; intros s k Hg Hk; [lia|].
  simpl. destruct (Rlt_dec (g s) (g k)) as [L|L].
  - assert (s <> k) by (intros ->; lra).
    rewrite IH by (auto; lia). lia.
  - destruct (Nat.eq_dec s k) as [->|N]; [lia|].
    exfalso. apply L, Hg. lia.
Qed.

(** Beyond the last node the search returns the length. *)
Lemma searchsorted_above x v :
  (forall a, In a x -> a < v) -> searchsorted x v = List.length x.
Proof.
  induction x as [|a x IH]; intros H; [reflexivity|].
  simpl. destruct (Rlt_dec a v) as [_|N].
  - f_equal. apply IH. intros b Hb. apply H. now right.
  - exfalso. apply N, H. now left.
Qed.

(** At or before the first node the search returns 0. *)
Lemma searchsorted_below a x v : v <= a -> searchsorted (a :: x) v = 0%nat.
Proof.
  intros H. simpl. destruct (Rlt_dec a v); [lra | reflexivity].
Qed.

Lemma MODELSZAS_length : List.length MODELSZAS = 1201%nat.
Proof. apply length_arange. Qed.

Lemma MODELSZAS_nth k : (k < 1201)%nat -> nth k MODELSZAS 0 = INR k * 0.1.
Proof. intros H. unfold MODELSZAS. rewrite nth_arange by assumption. lra. Qed.

Lemma INR_1200 : INR 1200 = 1200.
Proof. rewrite INR_IZR_INZ. reflexivity. Qed.

Lemma INR_1199 : INR 1199 = 1199.
Proof. rewrite INR_IZR_INZ. reflexivity. Qed.

Lemma MODELSZAS_bound a : In a MODELSZAS -> 0 <= a <= 120.
Proof.
  unfold MODELSZAS, np_arange. intros H. apply in_map_iff in H.
  destruct H as (i & <- & Hi). apply in_seq in Hi.
  assert (0 <= INR i) by apply pos_INR.
  assert (INR i <= INR 1200) by (apply le_INR; lia).
  rewrite INR_1200 in *. lra.
Qed.

(** At a node of the grid the interpolant returns the tabulated value. *)
Lemma call_linear_node (y : list R) k :
  (k < 1201)%nat ->
  call_linear MODELSZAS y (nth k MODELSZAS 0) = nth k y 0.
Proof.
  intros Hk. unfold call_linear. rewrite MODELSZAS_length.
  assert (Hs : searchsorted MODELSZAS (nth k MODELSZAS 0) = k).
  { rewrite MODELSZAS_nth by assumption.
    replace (INR k * 0.1) with (0 + INR k * 0.1) by lra.
    unfold MODELSZAS, np_arange.
    rewrite (searchsorted_node (fun i => 0 + INR i * 0.1) 1201 0 k);
      [lia| |lia].
    intros i j Hij. apply lt_INR in Hij. lra. }
  rewrite Hs. unfold clip.
  destruct k as [|k].
  - simpl Nat.min. simpl Nat.sub.
    rewrite !MODELSZAS_nth by lia. simpl INR. lra.
  - replace (Nat.min (Nat.max (S k) 1) (1201 - 1)) with (S k) by lia.
    replace (S k - 1)%nat with k by lia.
    rewrite !MODELSZAS_nth by lia. rewrite S_INR. field. lra.
Qed.

(** Above 120 degrees the interpolant is the line through the last two
    nodes. *)
Lemma call_linear_above (y : list R) v :
  120 < v ->
  call_linear MODELSZAS y v
  = (nth 1200 y 0 - nth 1199 y 0) / 0.1 * (v - 119.9) + nth 1199 y 0.
Proof.
  intros Hv. unfold call_linear. rewrite MODELSZAS_length.
  rewrite searchsorted_above, MODELSZAS_length.
  - replace (clip 1201 1 (1201 - 1)) with 1200%nat by reflexivity.
    replace (1200 - 1)%nat with 1199%nat by reflexivity.
    rewrite !MODELSZAS_nth by lia. rewrite INR_1200, INR_1199.
    replace (1200 * 0.1 - 1199 * 0.1) with 0.1 by lra.
    replace (1199 * 0.1) with 119.9 by lra. reflexivity.
  - intros a Ha. apply MODELSZAS_bound in Ha. lra.
Qed.

(** At or below 0 degrees it is the line through the first two nodes. *)
Lemma call_linear_below (y : list R) v :
  v <= 0 ->
  call_linear MODELSZAS y v
  = (nth 1 y 0 - nth 0 y 0) / 0.1 * (v - 0) + nth 0 y 0.
Proof.
  intros Hv. unfold call_linear. rewrite MODELSZAS_length.
  assert (Hs : searchsorted MODELSZAS v = 0%nat).
  { unfold MODELSZAS, np_arange.
    change (seq 0 1201) with (0%nat :: seq 1 1200). rewrite map_cons.
    apply searchsorted_below. simpl. lra. }
  rewrite Hs.
  replace (clip 0 1 (1201 - 1)) with 1%nat by reflexivity.
  replace (1 - 1)%nat with 0%nat by reflexivity.
  rewrite !MODELSZAS_nth by lia. simpl INR.
  replace (1 * 0.1 - 0 * 0.1) with 0.1 by lra.
  replace (0 * 0.1) with 0 by lra. reflexivity.
Qed.

End InterpFacts.

(** ** The function [EUV_conductance] channel by channel *)

Module EUVFacts.

Import EUV InterpFacts.

Section Production.

Variable PRODUCTION : list R.

(** The calibration in force after the fallback. *)
Definition effective (calibration : string) : string :=
  if str_in calibration calibrations then calibration else defcal.

(** One channel: interpolate the scaled table, clamp, reshape. *)
Definition euv_one (scaled : result (list R)) (sza : ndarray)
  : result ndarray :=
  s <- interpolate scaled sza ;;
  reshape (clamp0 s) (Np.shape sza).

Definition euv_hall (sza : ndarray) (F107 : R) (calibration : string) :=
  euv_one (hall_scaled PRODUCTION F107 (effective calibration)
             (calib_of (effective calibration))) sza.

Definition euv_ped (sza : ndarray) (F107 : R) (calibration : string) :=
  euv_one (ped_scaled PRODUCTION F107 (effective calibration)
             (calib_of (effective calibration))) sza.

Variable sza : ndarray.
Variable F107 : R.
Variable calibration : string.

Ltac freeze_euv :=
  unfold EUV_conductance, euv_hall, euv_ped, euv_one, effective;
  match goal with
  | |- context [assert ?c ?m] => change (assert c m) with (@Ok unit tt)
  end;
  cbv iota;
  destruct (str_in calibration calibrations); simpl negb; cbv iota;
  simpl snd; unfold EUV_body; cbv zeta;
  try (match goal with
       | |- context [interpolate (hall_scaled ?a ?b ?c ?d) ?e] =>
           generalize (interpolate (hall_scaled a b c d) e)
       end; intros sh);
  try (match goal with
       | |- context [interpolate (ped_scaled ?a ?b ?c ?d) ?e] =>
           generalize (interpolate (ped_scaled a b c d) e)
       end; intros sp);
  simpl.

Lemma EUV_h_iff a :
  snd (EUV_conductance PRODUCTION sza F107 "h" calibration) = Ok (One a) <->
  euv_hall sza F107 calibration = Ok a.
Proof.
  freeze_euv.
  - destruct sh as [h|e]; simpl; [|split; intuition congruence].
    destruct (reshape _ _) as [r|e]; simpl; split; intuition congruence.
  - destruct sh as [h|e]; simpl; [|split; intuition congruence].
    destruct (reshape _ _) as [r|e]; simpl; split; intuition congruence.
Qed.

Lemma EUV_p_iff a :
  snd (EUV_conductance PRODUCTION sza F107 "p" calibration) = Ok (One a) <->
  euv_ped sza F107 calibration = Ok a.
Proof.
  freeze_euv.
  - destruct sp as [h|e]; simpl; [|split; intuition congruence].
    destruct (reshape _ _) as [r|e]; simpl; split; intuition congruence.
  - destruct sp as [h|e]; simpl; [|split; intuition congruence].
    destruct (reshape _ _) as [r|e]; simpl; split; intuition congruence.
Qed.

Lemma EUV_hp_iff ah ap :
  snd (EUV_conductance PRODUCTION sza F107 "hp" calibration) = Ok (Two ah ap)
  <->
  euv_hall sza F107 calibration = Ok ah /\
  euv_ped sza F107 calibration = Ok ap.
Proof.
  freeze_euv.
  - destruct sh as [h|e]; simpl; [|split; intuition congruence].
    destruct sp as [p|e]; simpl; [|split; intuition congruence].
    destruct (reshape (clamp0 h) _) as [r|e]; simpl;
      [|split; intuition congruence].
    destruct (reshape (clamp0 p) _) as [r'|e]; simpl;
      split; intuition congruence.
  - destruct sh as [h|e]; simpl; [|split; intuition congruence].
    destruct sp as [p|e]; simpl; [|split; intuition congruence].
    destruct (reshape (clamp0 h) _) as [r|e]; simpl;
      [|split; intuition congruence].
    destruct (reshape (clamp0 p) _) as [r'|e]; simpl;
      split; intuition congruence.
Qed.

Lemma EUV_h_one r :
  snd (EUV_conductance PRODUCTION sza F107 "h" calibration) = Ok r ->
  exists a, r = One a.
Proof.
  freeze_euv; intros E;
    repeat (apply HardyFacts.bind_inv in E; destruct E as (? & _ & E));
    injection E as <-; eauto.
Qed.

Lemma EUV_p_one r :
  snd (EUV_conductance PRODUCTION sza F107 "p" calibration) = Ok r ->
  exists a, r = One a.
Proof.
  freeze_euv; intros E;
    repeat (apply HardyFacts.bind_inv in E; destruct E as (? & _ & E));
    injection E as <-; eauto.
Qed.

Lemma EUV_hp_two r :
  snd (EUV_conductance PRODUCTION sza F107 "hp" calibration) = Ok r ->
  exists ah ap, r = Two ah ap.
Proof.
  freeze_euv; intros E;
    repeat (apply HardyFacts.bind_inv in E; destruct E as (? & _ & E));
    injection E as <-; eauto.
Qed.

End Production.

End EUVFacts.

(** ** A small coefficient table and a sample call *)

Module Demo.

Import Hardy HardyFacts.

(** One constant term for level K0: peak value 0.3 mho at 60 degrees,
    up-slope 1, down-slope -1. *)
Definition demo_row : coef_row :=
  mk_row "K0" (CellStr "const") 0.3 60 1 (-1).

Definition demo_table : list coef_row := [demo_row].

Definition demo_parsed : list parsed_row := [(demo_row, (0%Z, cos))].

Lemma demo_derived :
  derived_columns (select_kp demo_table (PyInt 0)) = Ok demo_parsed.
Proof. reflexivity. Qed.

Lemma demo_maxlatitude t : fourier_sum maxlatitude demo_parsed t = 60.
Proof.
  unfold fourier_sum, demo_parsed, harmonic. simpl.
  replace (0 * t / 12 * PI) with 0 by lra. rewrite cos_0. lra.
Qed.

Lemma demo_maxvalue t : fourier_sum maxvalue demo_parsed t = 0.3.
Proof.
  unfold fourier_sum, demo_parsed, harmonic. simpl.
  replace (0 * t / 12 * PI) with 0 by lra. rewrite cos_0. lra.
Qed.

Lemma demo_up_slope t : fourier_sum up_slope demo_parsed t = 1.
Proof.
  unfold fourier_sum, demo_parsed, harmonic. simpl.
  replace (0 * t / 12 * PI) with 0 by lra. rewrite cos_0. lra.
Qed.

Lemma demo_down_slope t : fourier_sum down_slope demo_parsed t = -1.
Proof.
  unfold fourier_sum, demo_parsed, harmonic. simpl.
  replace (0 * t / 12 * PI) with 0 by lra. rewrite cos_0. lra.
Qed.

(** At the latitude of the peak the Epstein function returns the peak
    value. *)
Lemma epstein_pt_peak r S1 S2 h0 :
  S2 <> 0 -> S1 <> S2 -> epstein_pt r S1 S2 h0 h0 = r.
Proof.
  intros H2 H12. unfold epstein_pt.
  replace (h0 - h0) with 0 by lra. rewrite Ropp_0, exp_0, Rmult_1_r.
  replace ((1 - S1 / S2) / (1 - S1 / S2)) with 1.
  - rewrite ln_1. lra.
  - field. split; try assumption. intros E. apply H12. lra.
Qed.

Lemma demo_prefloor t : prefloor_at demo_parsed (60, t) = 0.3.
Proof.
  unfold prefloor_at. simpl fst. simpl snd.
  rewrite demo_maxvalue, demo_up_slope, demo_down_slope, demo_maxlatitude.
  apply epstein_pt_peak; lra.
Qed.

Lemma Rltb_irrefl x : Rltb x x = false.
Proof. unfold Rltb. destruct (Rlt_dec x x); [lra | reflexivity]. Qed.

Lemma demo_conductance t : conductance_at demo_parsed (Rabs 60, t) = 0.3.
Proof.
  rewrite Rabs_pos_eq by lra.
  unfold conductance_at, maxlatitude_at. simpl fst.
  rewrite demo_prefloor. simpl snd. rewrite demo_maxlatitude.
  unfold floor_pt. now rewrite Rltb_irrefl.
Qed.

(** [hardy(60, 0, 0)] on the demo tables. *)
Lemma demo_hardy_one :
  hardy_one demo_table (scalar_array 60) (scalar_array 0) (PyInt 0)
  = Ok (mk_ndarray [1%nat] [0.3]).
Proof.
  unfold hardy_one. simpl data. simpl map.
  rewrite (hardy_channel_ok demo_table [Rabs 60] [0] (PyInt 0) _ []
             [(Rabs 60, 0)] demo_derived eq_refl).
  simpl map. rewrite demo_conductance. reflexivity.
Qed.

Lemma demo_hardy :
  hardy demo_table demo_table (scalar_array 60) (scalar_array 0) (PyInt 0) "hp"
  = Ok (Two (mk_ndarray [1%nat] [0.3]) (mk_ndarray [1%nat] [0.3])).
Proof.
  apply hardy_hp_iff. repeat split; try reflexivity; apply demo_hardy_one.
Qed.

(** Away from the peak the Epstein function of the demo row falls off
    with slope 1 on either side: it is negative three degrees equatorward
    of the peak and below 0.55 two degrees poleward of it. *)
Lemma ln_2_lt_1 : ln 2 < 1.
Proof.
  rewrite <- (ln_exp 1). apply ln_increasing; [lra|].
  pose proof (exp_ineq1 1). lra.
Qed.

Lemma demo_epstein a :
  epstein_pt 0.3 1 (-1) 60 a
  = 0.3 + (a - 60) - 2 * ln ((1 + exp (a - 60)) / 2).
Proof.
  unfold epstein_pt. rewrite exp_Ropp.
  pose proof (exp_pos (a - 60)).
  replace ((1 - 1 / (-1 * / exp (a - 60))) / (1 - 1 / -1))
    with ((1 + exp (a - 60)) / 2) by (field; lra).
  lra.
Qed.

Lemma demo_epstein_equatorward a :
  a <= 57 -> epstein_pt 0.3 1 (-1) 60 a < 0.
Proof.
  intros Ha. rewrite demo_epstein.
  pose proof (exp_pos (a - 60)) as He. pose proof ln_2_lt_1 as H2.
  assert (L : ln (/ 2) < ln ((1 + exp (a - 60)) / 2))
    by (apply ln_increasing; lra).
  rewrite ln_Rinv in L by lra. lra.
Qed.

Lemma demo_epstein_poleward a :
  62 <= a -> epstein_pt 0.3 1 (-1) 60 a < 0.55.
Proof.
  intros Ha. rewrite demo_epstein.
  pose proof (exp_pos (a - 60)) as He. pose proof ln_2_lt_1 as H2.
  assert (L : ln (exp (a - 60) / 2) < ln ((1 + exp (a - 60)) / 2))
    by (apply ln_increasing; lra).
  unfold Rdiv at 1 in L.
  rewrite ln_mult, ln_Rinv, ln_exp in L by lra. lra.
Qed.

Lemma demo_conductance_equatorward t :
  conductance_at demo_parsed (Rabs 50, t) = 0.
Proof.
  rewrite Rabs_pos_eq by lra.
  unfold conductance_at, maxlatitude_at, prefloor_at. simpl fst. simpl snd.
  rewrite demo_maxvalue, demo_up_slope, demo_down_slope, demo_maxlatitude.
  assert (Hc : epstein_pt 0.3 1 (-1) 60 50 < 0)
    by (apply demo_epstein_equatorward; lra).
  unfold floor_pt, Rltb.
  destruct (Rlt_dec 50 60); [|lra].
  destruct (Rlt_dec (epstein_pt 0.3 1 (-1) 60 50) 0); [|lra]. simpl.
  destruct (Rlt_dec 60 50); [lra | reflexivity].
Qed.

Lemma demo_conductance_poleward t :
  conductance_at demo_parsed (Rabs 70, t) = 0.55.
Proof.
  rewrite Rabs_pos_eq by lra.
  unfold conductance_at, maxlatitude_at, prefloor_at. simpl fst. simpl snd.
  rewrite demo_maxvalue, demo_up_slope, demo_down_slope, demo_maxlatitude.
  assert (Hc : epstein_pt 0.3 1 (-1) 60 70 < 0.55)
    by (apply demo_epstein_poleward; lra).
  unfold floor_pt, Rltb.
  destruct (Rlt_dec 70 60); [lra|]. simpl.
  destruct (Rlt_dec 60 70); [|lra].
  destruct (Rlt_dec (epstein_pt 0.3 1 (-1) 60 70) 0.55); [|lra].
  reflexivity.
Qed.

(** [hardy([50, 70], 0, 0)] on the demo tables: both floors act. *)
Definition demo_mlat : ndarray := mk_ndarray [2%nat] [50; 70].

Lemma demo_hardy_one_floors :
  hardy_one demo_table demo_mlat (scalar_array 0) (PyInt 0)
  = Ok (mk_ndarray [2%nat] [0; 0.55]).
Proof.
  unfold hardy_one. simpl data. simpl map.
  rewrite (hardy_channel_ok demo_table [Rabs 50; Rabs 70] [0] (PyInt 0) _ []
             [(Rabs 50, 0); (Rabs 70, 0)] demo_derived eq_refl).
  simpl map. rewrite demo_conductance_equatorward, demo_conductance_poleward.
  reflexivity.
Qed.

Lemma demo_hardy_floors :
  hardy demo_table demo_table demo_mlat (scalar_array 0) (PyInt 0) "hp"
  = Ok (Two (mk_ndarray [2%nat] [0; 0.55]) (mk_ndarray [2%nat] [0; 0.55])).
Proof.
  apply hardy_hp_iff. repeat split; try reflexivity;
    apply demo_hardy_one_floors.
Qed.

(** A table with a constant, a cosine and a sine term for level K0 and
    a row of another level. *)
Definition demo_series_table : list coef_row :=
  [ mk_row "K0" (CellStr "const") 5 65 1 (-1);
    mk_row "K0" (CellStr "Cos1") 1 2 0.1 0.1;
    mk_row "K0" (CellStr "Sin2") 0.5 1 0.1 (-0.1);
    mk_row "K1" (CellStr "const") 6 64 1 (-1) ].

Definition demo_series_parsed : list parsed_row :=
  [ (mk_row "K0" (CellStr "const") 5 65 1 (-1), (0%Z, cos));
    (mk_row "K0" (CellStr "Cos1") 1 2 0.1 0.1, (1%Z, cos));
    (mk_row "K0" (CellStr "Sin2") 0.5 1 0.1 (-0.1), (2%Z, sin)) ].

Lemma demo_series_derived :
  derived_columns (select_kp demo_series_table (PyInt 0))
  = Ok demo_series_parsed.
Proof. reflexivity. Qed.

Definition demo_mlt : ndarray := mk_ndarray [2%nat] [6; 15].

End Demo.

(** ** Properties of [hardy] *)

Module HardyProperties.

Import Hardy BroadcastFacts HardyFacts Demo.

Lemma reshape_inv xs s a :
  reshape xs s = Ok a -> a = mk_ndarray s xs /\ List.length xs = size_of s.
Proof.
  unfold reshape. destruct (Nat.eqb_spec (List.length xs) (size_of s));
    [|discriminate].
  intros E. injection E as <-. now split.
Qed.

Lemma hardy_one_inv table mlat mlt kp a :
  hardy_one table mlat mlt kp = Ok a ->
  exists sh row rows xs,
    hardy_shape mlat mlt = Ok sh /\
    derived_columns (select_kp table kp) = Ok (row :: rows) /\
    samples (map Rabs (data mlat)) (data mlt) = Ok (Arr xs) /\
    a = mk_ndarray sh (map (conductance_at (row :: rows)) xs).
Proof.
  unfold hardy_one. intros E.
  apply bind_inv in E. destruct E as (sh & Es & E).
  apply bind_inv in E. destruct E as (c & Ec & E).
  apply hardy_channel_inv in Ec.
  destruct Ec as (row & rows & xs & Hd & Hs & ->).
  apply reshape_inv in E. destruct E as [-> _].
  now exists sh, row, rows, xs.
Qed.

(** What the two masked assignments do to one sample: equatorward of
    the peak latitude a negative value becomes 0, poleward of it a value
    below 0.55 becomes 0.55, and at the peak latitude itself the value is
    kept. *)
Definition floor_policy (mlat h0 c v : R) : Prop :=
  (mlat < h0 -> (c < 0 -> v = 0) /\ (0 <= c -> v = c) /\ 0 <= v) /\
  (h0 < mlat ->
   (c < 0.55 -> v = 0.55) /\ (0.55 <= c -> v = c) /\ 0.55 <= v) /\
  (mlat = h0 -> v = c).

Lemma floor_pt_policy mlat h0 c : floor_policy mlat h0 c (floor_pt mlat h0 c).
Proof.
  unfold floor_policy, floor_pt, Rltb.
  destruct (Rlt_dec mlat h0), (Rlt_dec c 0), (Rlt_dec h0 mlat); simpl;
    repeat match goal with
           | |- context [Rlt_dec ?a ?b] => destruct (Rlt_dec a b)
           end; simpl; repeat split; intros; lra.
Qed.

(** The Epstein value of a sample is a number when numpy's two
    divisions have non-zero divisors and its logarithm has a positive
    argument; where this fails numpy yields nan or an infinity, which the
    masked assignments leave in place. *)
Definition epstein_defined (S1 S2 h0 mlat : R) : Prop :=
  S2 <> 0 /\ S1 <> S2 /\
  0 < (1 - S1 / (S2 * exp (- (mlat - h0)))) / (1 - S1 / S2).

Definition defined_at (rows : list parsed_row) (p : R * R) : Prop :=
  epstein_defined (fourier_sum up_slope rows (snd p))
                  (fourier_sum down_slope rows (snd p))
                  (fourier_sum maxlatitude rows (snd p))
                  (fst p).

(** An array of a channel, described sample by sample. *)
Definition floored (table : list coef_row) (kp : pyobj)
  (xs : list (R * R)) (out : list R) : Prop :=
  exists rows,
    derived_columns (select_kp table kp) = Ok rows /\
    Forall2 (fun p v =>
               defined_at rows p ->
               floor_policy (fst p) (maxlatitude_at rows p)
                            (prefloor_at rows p) v) xs out.

Lemma Forall2_map_graph {A B : Type} (Q : A -> B -> Prop) (f : A -> B) xs :
  (forall x, Q x (f x)) -> Forall2 Q xs (map f xs).
Proof. intros H. induction xs; simpl; constructor; auto. Qed.

Lemma hardy_one_floored table mlat mlt kp a :
  hardy_one table mlat mlt kp = Ok a ->
  exists xs, samples (map Rabs (data mlat)) (data mlt) = Ok (Arr xs) /\
             floored table kp xs (data a).
Proof.
  intros E. apply hardy_one_inv in E.
  destruct E as (sh & row & rows & xs & _ & Hd & Hs & ->).
  exists xs. split; [assumption|]. exists (row :: rows). split; [assumption|].
  simpl data. apply Forall2_map_graph. intros p _. apply floor_pt_policy.
Qed.

(** An int level with rows in both tables and arrays that broadcast
    returns the pair of floored conductances. *)
Lemma hardy_returns H P mlat mlt kp sh rh rowsh rp rowsp xs :
  in_ints kp kp_levels = true ->
  hardy_shape mlat mlt = Ok sh ->
  derived_columns (select_kp H kp) = Ok (rh :: rowsh) ->
  derived_columns (select_kp P kp) = Ok (rp :: rowsp) ->
  samples (map Rabs (data mlat)) (data mlt) = Ok (Arr xs) ->
  List.length xs = size_of sh ->
  hardy H P mlat mlt kp "hp"
  = Ok (Two (mk_ndarray sh (map (conductance_at (rh :: rowsh)) xs))
            (mk_ndarray sh (map (conductance_at (rp :: rowsp)) xs))).
Proof.
  intros Hk Hs Hh Hp Hx Hl. apply hardy_hp_iff.
  split; [assumption|]. unfold hardy_one. rewrite Hs. cbn [bind].
  rewrite (hardy_channel_ok _ _ _ _ _ _ _ Hh Hx).
  rewrite (hardy_channel_ok _ _ _ _ _ _ _ Hp Hx). cbn [bind].
  unfold reshape. rewrite !length_map, Hl, Nat.eqb_refl. now split.
Qed.

(** Every sample of the demo table has a defined Epstein value. *)
Lemma demo_defined p : defined_at demo_parsed p.
Proof.
  unfold defined_at.
  rewrite demo_up_slope, demo_down_slope, demo_maxlatitude.
  unfold epstein_defined. split; [lra|]. split; [lra|].
  rewrite exp_Ropp. pose proof (exp_pos (fst p - 60)).
  replace ((1 - 1 / (-1 * / exp (fst p - 60))) / (1 - 1 / -1))
    with ((1 + exp (fst p - 60)) / 2) by (field; lra).
  lra.
Qed.

(** C1, as the code has it: in both arrays that [hardy] returns, at every
    sample whose Epstein value is a number (not nan), where |mlat| < h0 a
    negative Epstein value is replaced by 0, where |mlat| > h0 a value
    below 0.55 is replaced by 0.55, and every other value is returned as
    computed; so at these samples every returned value is >= 0 where
    |mlat| < h0 and >= 0.55 where |mlat| > h0.  At |mlat| = h0 neither
    floor applies.  Here h0 is the maxlatitude reconstructed at the
    sample. *)
Theorem hardy_floors H P mlat mlt kp ah ap :
  hardy H P mlat mlt kp "hp" = Ok (Two ah ap) ->
  in_ints kp kp_levels = true /\
  exists xs,
    samples (map Rabs (data mlat)) (data mlt) = Ok (Arr xs) /\
    floored H kp xs (data ah) /\ floored P kp xs (data ap).
Proof.
  intros E. apply hardy_hp_iff in E. destruct E as (Hk & Eh & Ep).
  split; [assumption|].
  apply hardy_one_floored in Eh. destruct Eh as (xs & Hs & Fh).
  apply hardy_one_floored in Ep. destruct Ep as (xs' & Hs' & Fp).
  rewrite Hs in Hs'. injection Hs' as <-.
  exists xs. now repeat split.
Qed.

(** On the demo table, [hardy([50, 70], 0, 0)]: the first sample lies
    equatorward of the peak at 60 degrees and its negative Epstein value
    is returned as 0, the second lies poleward and is returned as 0.55. *)
Lemma hardy_floors_witness :
  in_ints (PyInt 0) kp_levels = true /\
  exists xs,
    samples (map Rabs (data demo_mlat)) (data (scalar_array 0))
    = Ok (Arr xs) /\
    floored demo_table (PyInt 0) xs [0; 0.55] /\
    floored demo_table (PyInt 0) xs [0; 0.55].
Proof.
  exact (hardy_floors demo_table demo_table demo_mlat (scalar_array 0)
           (PyInt 0) _ _ demo_hardy_floors).
Defined.

(** C1 as stated fails at the peak latitude: on the demo table the
    sample |mlat| = 60 = h0 has the Epstein value 0.3, a number below
    0.55, and 0.3 is what [hardy] returns there. *)
Lemma hardy_floor_counterexample :
  hardy demo_table demo_table (scalar_array 60) (scalar_array 0) (PyInt 0) "hp"
  = Ok (Two (mk_ndarray [1%nat] [0.3]) (mk_ndarray [1%nat] [0.3])) /\
  derived_columns (select_kp demo_table (PyInt 0)) = Ok demo_parsed /\
  defined_at demo_parsed (Rabs 60, 0) /\
  Rabs 60 >= maxlatitude_at demo_parsed (Rabs 60, 0) /\
  prefloor_at demo_parsed (Rabs 60, 0) < 0.55 /\
  ~ (0.3 >= 0.55).
Proof.
  split; [exact demo_hardy|]. split; [exact demo_derived|].
  split; [apply demo_defined|].
  unfold maxlatitude_at. simpl snd. rewrite demo_maxlatitude.
  rewrite Rabs_pos_eq by lra. rewrite demo_prefloor.
  repeat split; lra.
Qed.

(** *** The Fourier series and the Epstein function *)

(** How a selected row got its harmonic order and its function. *)
Definition row_parsed (pr : parsed_row) : Prop :=
  exists t, term (fst pr) = CellStr t /\
            term_n t = Ok (fst (snd pr)) /\
            snd (snd pr) = term_trig t.

Lemma map_result_Forall2 {A B : Type} (f : A -> result B) l : forall bs,
  map_result f l = Ok bs -> Forall2 (fun a b => f a = Ok b) l bs.
Proof.
  induction l as [|a l IH]; simpl; intros bs E.
  - injection E as <-. constructor.
  - apply bind_inv in E. destruct E as (b & Eb & E).
    apply bind_inv in E. destruct E as (bs' & E' & E).
    injection E as <-. constructor; [assumption | now apply IH].
Qed.

Lemma map_result_length {A B : Type} (f : A -> result B) l bs :
  map_result f l = Ok bs -> List.length bs = List.length l.
Proof.
  intros E. apply map_result_Forall2 in E. symmetry.
  induction E; simpl; congruence.
Qed.

Lemma columns_parsed hc : forall lasts ns trigs,
  Forall2 (fun t x => last_or_zero t = Ok x) (map term hc) lasts ->
  Forall2 (fun x n => to_int x = Ok n) lasts ns ->
  Forall2 (fun t g => cell_trig t = Ok g) (map term hc) trigs ->
  map fst (combine hc (combine ns trigs)) = hc /\
  Forall row_parsed (combine hc (combine ns trigs)).
Proof.
  induction hc as [|row hc IH]; intros lasts ns trigs Hl Hn Ht.
  - split; [reflexivity | constructor].
  - simpl in Hl, Ht.
    inversion Hl as [|t x ts lasts' El Hl' E1 E2]; subst.
    inversion Hn as [|x' n xs ns' En Hn' E1 E2]; subst.
    inversion Ht as [|t' g ts' trigs' Eg Ht' E1 E2]; subst.
    destruct (IH _ _ _ Hl' Hn' Ht') as [IH1 IH2].
    simpl. split; [now rewrite IH1|].
    constructor; [|assumption].
    unfold row_parsed. simpl.
    destruct (term row) as [t|]; [|discriminate].
    exists t. split; [reflexivity|].
    simpl in El, Eg. injection Eg as <-. split; [|reflexivity].
    unfold term_n. destruct (last_char t) as [c|e]; [|discriminate].
    simpl in El. injection El as <-. simpl.
    destruct (Ascii.eqb c "t"); simpl in En; assumption.
Qed.

Lemma derived_columns_spec hc rows :
  derived_columns hc = Ok rows ->
  map fst rows = hc /\ Forall row_parsed rows.
Proof.
  unfold derived_columns. intros E.
  apply bind_inv in E. destruct E as (lasts & El & E).
  apply bind_inv in E. destruct E as (ns & En & E).
  apply bind_inv in E. destruct E as (trigs & Et & E).
  injection E as <-.
  apply columns_parsed with (lasts := lasts);
    now apply map_result_Forall2.
Qed.

(** What the label of a term says, in the words of the specification:
    the harmonic order is the final digit of the label, and 0 for a label
    that ends in the letter t, as [const] does; the function is the sine
    for a label that starts with [Sin] and the cosine for any other. *)
Definition tagged (t : string) (n : Z) (trig : R -> R) : Prop :=
  (exists body c,
     t = (body ++ String c EmptyString)%string /\
     (c = "t"%char -> n = 0%Z) /\
     (c <> "t"%char ->
      (48 <= nat_of_ascii c <= 57)%nat /\
      n = (Z.of_nat (nat_of_ascii c) - 48)%Z)) /\
  ((exists rest, t = ("Sin" ++ rest)%string) -> trig = sin) /\
  ((~ exists rest, t = ("Sin" ++ rest)%string) -> trig = cos).

Lemma last_char_app t : forall c,
  last_char t = Ok c -> exists body, t = (body ++ String c EmptyString)%string.
Proof.
  induction t as [|a t IH]; intros c E; [discriminate|].
  destruct t as [|b t'].
  - injection E as <-. now exists EmptyString.
  - change (last_char (String b t') = Ok c) in E.
    destruct (IH c E) as [body Hb]. exists (String a body).
    simpl. now rewrite <- Hb.
Qed.

Lemma substring_0_0 s : substring 0 0 s = EmptyString.
Proof. now destruct s. Qed.

Lemma starts_with_Sin t :
  substring 0 3 t = "Sin"%string <-> exists rest, t = ("Sin" ++ rest)%string.
Proof.
  split.
  - destruct t as [|a [|b [|c rest]]]; simpl; try discriminate.
    rewrite substring_0_0. intros E. injection E as -> -> ->. now exists rest.
  - intros [rest ->]. simpl. now rewrite substring_0_0.
Qed.

Lemma row_parsed_tagged pr :
  row_parsed pr ->
  exists t, term (fst pr) = CellStr t /\ tagged t (fst (snd pr)) (snd (snd pr)).
Proof.
  intros (t & Et & En & Eg). exists t. split; [assumption|].
  unfold tagged. split.
  - unfold term_n in En. apply bind_inv in En. destruct En as (c & Ec & En).
    destruct (last_char_app _ _ Ec) as [body Hb]. exists body, c.
    split; [assumption|].
    destruct (Ascii.eqb_spec c "t") as [->|Hc].
    + injection En as <-. split; [reflexivity | congruence].
    + split; [congruence|]. intros _. unfold int_of_char in En.
      destruct (Nat.leb_spec 48 (nat_of_ascii c)); simpl in En;
        [|discriminate].
      destruct (Nat.leb_spec (nat_of_ascii c) 57); simpl in En;
        [|discriminate].
      injection En as <-. split; lia.
  - rewrite Eg. unfold term_trig.
    destruct (String.eqb_spec (substring 0 3 t) "Sin") as [E|N].
    + split; [reflexivity|]. intros N. elim N. now apply starts_with_Sin.
    + split; [|reflexivity]. intros E. elim N. now apply starts_with_Sin.
Qed.

(** The stages of one successful run of the block of a channel. *)
Lemma hardy_channel_trace table mlat mlt kp out :
  hardy_channel table mlat mlt kp = Ok out ->
  exists xs rows e,
    samples mlat mlt = Ok (Arr xs) /\
    derived_columns (select_kp table kp) = Ok rows /\
    iterrows (Arr mlt) rows epstein_init = Ok e /\
    ep_maxvalue e = Arr (map (fourier_sum maxvalue rows) mlt) /\
    ep_maxlatitude e = Arr (map (fourier_sum maxlatitude rows) mlt) /\
    ep_up_slope e = Arr (map (fourier_sum up_slope rows) mlt) /\
    ep_down_slope e = Arr (map (fourier_sum down_slope rows) mlt) /\
    epstein_transition (ep_maxvalue e) (ep_up_slope e) (ep_down_slope e)
                       (ep_maxlatitude e) (Arr mlat)
    = Ok (Arr (map (prefloor_at rows) xs)) /\
    floors (Arr mlat) (ep_maxlatitude e) (Arr (map (prefloor_at rows) xs))
    = Ok (Arr out).
Proof.
  intros E. pose proof E as E0. apply hardy_channel_inv in E0.
  destruct E0 as (row & rows & xs & Hd & Hs & _).
  assert (Ht : rep mlt true (Arr mlt) (fun t => t))
    by (simpl; now rewrite map_id).
  destruct (iterrows_series mlt (fun t => t) true (Arr mlt) row rows Ht)
    as (e & Ee & K1 & K2 & K3 & K4).
  simpl in K1, K2, K3, K4.
  destruct (pairs_rep _ _ _ Hs) as (b1 & b2 & Hb & Ha & Hm).
  destruct (iterrows_series xs snd b2 (Arr mlt) row rows Hm)
    as (e' & Ee' & L1 & L2 & L3 & L4).
  rewrite Ee in Ee'. injection Ee' as <-.
  destruct (epstein_transition_rep xs b1 b2 _ _ _ _ _ _ _ _ _ _
              Hb Ha L1 L3 L4 L2) as (c & Ec & Hc).
  simpl in Hc. subst c.
  exists xs, (row :: rows), e.
  repeat (split; [assumption|]).
  unfold hardy_channel in E. cbv zeta in E.
  rewrite (bind_ok _ _ _ Hd), (bind_ok _ _ _ Ee), (bind_ok _ _ _ Ec) in E.
  apply bind_inv in E. destruct E as (c' & Ef & E).
  destruct c' as [x|c']; [discriminate|]. injection E as <-. exact Ef.
Qed.

(** An array of a channel, stage by stage: the rows are those of the
    table whose label is 'K' + str(kp), each with the order and the
    function of its term; the loop leaves in each of the four parameters
    the array of its Fourier series over mlt; the Epstein function
    yields, at every sample where it is defined, the value of the
    formula; the array returned is this one after the two floors. *)
Definition reconstructed (table : list coef_row) (kp : pyobj)
  (mlat mlt : list R) (xs : list (R * R)) (out : list R) : Prop :=
  exists rows e c,
    map fst rows
    = filter (fun row => String.eqb (Kp row) ("K" ++ str kp)) table /\
    Forall (fun pr => exists t, term (fst pr) = CellStr t /\
                                tagged t (fst (snd pr)) (snd (snd pr))) rows /\
    iterrows (Arr mlt) rows epstein_init = Ok e /\
    ep_maxvalue e = Arr (map (fourier_sum maxvalue rows) mlt) /\
    ep_maxlatitude e = Arr (map (fourier_sum maxlatitude rows) mlt) /\
    ep_up_slope e = Arr (map (fourier_sum up_slope rows) mlt) /\
    ep_down_slope e = Arr (map (fourier_sum down_slope rows) mlt) /\
    epstein_transition (ep_maxvalue e) (ep_up_slope e) (ep_down_slope e)
                       (ep_maxlatitude e) (Arr mlat) = Ok (Arr c) /\
    Forall2 (fun p v =>
               let r := fourier_sum maxvalue rows (snd p) in
               let S1 := fourier_sum up_slope rows (snd p) in
               let S2 := fourier_sum down_slope rows (snd p) in
               let h0 := fourier_sum maxlatitude rows (snd p) in
               epstein_defined S1 S2 h0 (fst p) ->
               v = r + S1 * (fst p - h0) +
                   (S2 - S1) *
                   ln ((1 - S1 / (S2 * exp (- (fst p - h0))))
                       / (1 - S1 / S2))) xs c /\
    floors (Arr mlat) (ep_maxlatitude e) (Arr c) = Ok (Arr out).

Lemma hardy_one_reconstructed table mlat mlt kp a :
  hardy_one table mlat mlt kp = Ok a ->
  exists xs, samples (map Rabs (data mlat)) (data mlt) = Ok (Arr xs) /\
    reconstructed table kp (map Rabs (data mlat)) (data mlt) xs (data a).
Proof.
  unfold hardy_one. intros E.
  apply bind_inv in E. destruct E as (sh & _ & E).
  apply bind_inv in E. destruct E as (out & Ec & E).
  apply reshape_inv in E. destruct E as [-> _]. simpl data.
  apply hardy_channel_trace in Ec.
  destruct Ec as (xs & rows & e & Hs & Hd & Ee & K1 & K2 & K3 & K4 & Et & Ef).
  exists xs. split; [assumption|].
  exists rows, e, (map (prefloor_at rows) xs).
  apply derived_columns_spec in Hd. destruct Hd as [Hsel Hp].
  split; [exact Hsel|].
  split.
  { apply Forall_forall. intros pr Hin. apply row_parsed_tagged.
    revert pr Hin. now apply Forall_forall. }
  repeat (split; [assumption|]).
  split; [|assumption].
  apply Forall2_map_graph. intros p. cbv zeta. intros _. reflexivity.
Qed.

(** C2: in both arrays that [hardy] returns, the rows used are those of
    the table of the channel with the label 'K' + str(kp); the harmonic
    order of a row is the final digit of its term (0 for the constant
    term) and its function the sine for a term that starts with Sin, the
    cosine otherwise; each of the four Epstein parameters is the sum over
    these rows of coefficient * trig(n * mlt / 12 * pi) ([fourier_sum]);
    the conductance before the floors is r + S1*(mlat - h0) + (S2 - S1) *
    ln((1 - S1/(S2*exp(-(mlat-h0)))) / (1 - S1/S2)) at each sample where
    this is defined; and what is returned is that array after the
    floors. *)
Theorem hardy_fourier_epstein H P mlat mlt kp ah ap :
  hardy H P mlat mlt kp "hp" = Ok (Two ah ap) ->
  in_ints kp kp_levels = true /\
  exists xs,
    samples (map Rabs (data mlat)) (data mlt) = Ok (Arr xs) /\
    reconstructed H kp (map Rabs (data mlat)) (data mlt) xs (data ah) /\
    reconstructed P kp (map Rabs (data mlat)) (data mlt) xs (data ap).
Proof.
  intros E. apply hardy_hp_iff in E. destruct E as (Hk & Eh & Ep).
  split; [assumption|].
  apply hardy_one_reconstructed in Eh. destruct Eh as (xs & Hs & Fh).
  apply hardy_one_reconstructed in Ep. destruct Ep as (xs' & Hs' & Fp).
  rewrite Hs in Hs'. injection Hs' as <-.
  exists xs. now repeat split.
Qed.

(** [hardy([50, 70], [6, 15], 0)] on a table with a constant, a cosine
    and a sine term for K0 and a row for K1. *)
Lemma demo_series_hardy :
  hardy demo_series_table demo_series_table demo_mlat demo_mlt (PyInt 0) "hp"
  = Ok (Two (mk_ndarray [2%nat]
               (map (conductance_at demo_series_parsed)
                    [(Rabs 50, 6); (Rabs 70, 15)]))
            (mk_ndarray [2%nat]
               (map (conductance_at demo_series_parsed)
                    [(Rabs 50, 6); (Rabs 70, 15)]))).
Proof.
  apply (hardy_returns demo_series_table demo_series_table demo_mlat demo_mlt
           (PyInt 0) [2%nat]); reflexivity.
Qed.

Lemma hardy_fourier_epstein_witness :
  in_ints (PyInt 0) kp_levels = true /\
  exists xs,
    samples (map Rabs (data demo_mlat)) (data demo_mlt) = Ok (Arr xs) /\
    reconstructed demo_series_table (PyInt 0)
      (map Rabs (data demo_mlat)) (data demo_mlt) xs
      (map (conductance_at demo_series_parsed)
           [(Rabs 50, 6); (Rabs 70, 15)]) /\
    reconstructed demo_series_table (PyInt 0)
      (map Rabs (data demo_mlat)) (data demo_mlt) xs
      (map (conductance_at demo_series_parsed)
           [(Rabs 50, 6); (Rabs 70, 15)]).
Proof.
  exact (hardy_fourier_epstein demo_series_table demo_series_table
           demo_mlat demo_mlt (PyInt 0) _ _ demo_series_hardy).
Defined.

(** *** The Kp argument *)

Definition kp_msg : string :=
  "hardy: Kp must be an integer in the range 0-6".

(** The labels of the column Kp in the two coefficient files. *)
Definition kp_labels : list string :=
  ["K0"; "K1"; "K2"; "K3"; "K4"; "K5"; "K6"]%string.

Definition labelled (table : list coef_row) : Prop :=
  Forall (fun row => In (Kp row) kp_labels) table.

Lemma float_repr_integral q k :
  (0 <= k)%Z -> Qeq_bool q (inject_Z k) = true ->
  float_repr q = (str_of_Z k ++ ".0")%string.
Proof.
  destruct q as [n d]. unfold float_repr. simpl Qnum. simpl Qden.
  intros Hk E. apply Qeq_bool_iff in E. unfold Qeq in E. simpl in E.
  rewrite Z.mul_1_r in E. subst n.
  assert (Hd : (0 < Z.pos d)%Z) by lia.
  assert (Hge : (0 <= k * Z.pos d)%Z) by nia.
  replace (k * Z.pos d <? 0)%Z with false by (symmetry; now apply Z.ltb_ge).
  rewrite (Z.abs_eq _ Hge), Z.div_mul, Z.mod_mul by lia.
  reflexivity.
Qed.

(** A float or a bool that passes the assertion gives a key that is
    none of the labels. *)
Lemma key_not_a_label kp :
  in_ints kp kp_levels = true ->
  (exists q, kp = PyFloat q) \/ (exists b, kp = PyBool b) ->
  ~ In ("K" ++ str kp)%string kp_labels.
Proof.
  intros Hin [[q ->] | [b ->]].
  - unfold in_ints in Hin. apply existsb_exists in Hin.
    destruct Hin as (k & Hk & E). simpl in E.
    assert (Hk0 : (0 <= k)%Z)
      by (unfold kp_levels in Hk; simpl in Hk; lia).
    simpl str. rewrite (float_repr_integral q k Hk0 E).
    unfold kp_levels in Hk. simpl in Hk.
    destruct Hk as [<-|[<-|[<-|[<-|[<-|[<-|[<-|[]]]]]]]];
      simpl; intuition discriminate.
  - destruct b; simpl; intuition discriminate.
Qed.

Lemma select_kp_no_label table kp :
  labelled table -> ~ In ("K" ++ str kp)%string kp_labels ->
  select_kp table kp = [].
Proof.
  intros Hl Hk. unfold select_kp.
  induction Hl as [|row table Hrow _ IH]; [reflexivity|].
  cbn [filter]. destruct (String.eqb_spec (Kp row) ("K" ++ str kp)) as [E|_].
  - elim Hk. now rewrite <- E.
  - exact IH.
Qed.

(** Without selected rows a call that passed the assertions raises. *)
Lemma hardy_no_rows H P mlat mlt kp sh :
  in_ints kp kp_levels = true ->
  hardy_shape mlat mlt = Ok sh ->
  select_kp H kp = [] ->
  hardy H P mlat mlt kp "hp" = Raise ZeroDivisionError.
Proof.
  intros Hk Hs Hsel. unfold hardy.
  change (str_in (lower "hp") channels) with true.
  rewrite Hk. unfold assert at 1 2.
  rewrite !(bind_ok _ _ tt eq_refl).
  fold (hardy_shape mlat mlt). rewrite (bind_ok _ _ _ Hs).
  change (contains "h" (lower "hp")) with true. cbv iota.
  rewrite flatten_abs, flatten_ndmin1.
  rewrite hardy_channel_norows; [reflexivity|].
  rewrite Hsel. reflexivity.
Qed.

(** The values that the assertion rejects. *)
Lemma hardy_rejects H P mlat mlt kp :
  In kp [PyInt (-1); PyInt 7; PyFloat (5 # 2); PyStr "3"] ->
  hardy H P mlat mlt kp "hp" = Raise (AssertionError kp_msg).
Proof.
  intros [<-|[<-|[<-|[<-|[]]]]]; reflexivity.
Qed.

(** [hardy] flattens mlat and mlt separately, so shapes that broadcast
    to a larger shape, such as (2,1) against (1,2), meet a result of the
    wrong size at [reshape]. *)
Lemma hardy_outer_shapes_raise :
  hardy demo_table demo_table
        (mk_ndarray [2%nat; 1%nat] [60; 61]) (mk_ndarray [1%nat; 2%nat] [0; 1])
        (PyInt 0) "hp" = Raise ValueError.
Proof.
  unfold hardy.
  change (str_in (lower "hp") channels) with true.
  change (in_ints (PyInt 0) kp_levels) with true.
  unfold assert at 1 2. rewrite !(bind_ok _ _ tt eq_refl).
  fold (hardy_shape (mk_ndarray [2%nat; 1%nat] [60; 61])
                    (mk_ndarray [1%nat; 2%nat] [0; 1])).
  rewrite (bind_ok _ _ [2%nat; 2%nat] eq_refl).
  change (contains "h" (lower "hp")) with true.
  change (contains "p" (lower "hp")) with true. cbv iota.
  rewrite flatten_abs, flatten_ndmin1. simpl data. simpl map.
  rewrite (hardy_channel_ok demo_table [Rabs 60; Rabs 61] [0; 1] (PyInt 0)
             _ [] [(Rabs 60, 0); (Rabs 61, 1)] demo_derived eq_refl).
  reflexivity.
Qed.

(** C5, at the inputs that decide it: the four values of the
    specification are rejected by the assertion, but the float 2.0, which
    is not an int, passes it; the call then selects no row and raises
    ZeroDivisionError instead of the assertion's error. *)
Theorem hardy_kp_validation H P mlat mlt sh :
  labelled H ->
  hardy_shape mlat mlt = Ok sh ->
  (forall kp, In kp [PyInt (-1); PyInt 7; PyFloat (5 # 2); PyStr "3"] ->
     hardy H P mlat mlt kp "hp" = Raise (AssertionError kp_msg)) /\
  in_ints (PyFloat (2 # 1)) kp_levels = true /\
  hardy H P mlat mlt (PyFloat (2 # 1)) "hp" = Raise ZeroDivisionError.
Proof.
  intros Hl Hs. split; [intros kp; apply hardy_rejects|].
  split; [reflexivity|].
  apply (hardy_no_rows H P mlat mlt (PyFloat (2 # 1)) sh eq_refl Hs).
  apply select_kp_no_label; [assumption|].
  apply key_not_a_label; [reflexivity | left; now exists (2 # 1)].
Qed.

Lemma demo_labelled : labelled demo_table.
Proof. repeat constructor. Qed.

Lemma hardy_kp_validation_witness :
  (forall kp, In kp [PyInt (-1); PyInt 7; PyFloat (5 # 2); PyStr "3"] ->
     hardy demo_table demo_table (scalar_array 60) (scalar_array 0) kp "hp"
     = Raise (AssertionError kp_msg)) /\
  in_ints (PyFloat (2 # 1)) kp_levels = true /\
  hardy demo_table demo_table (scalar_array 60) (scalar_array 0)
        (PyFloat (2 # 1)) "hp" = Raise ZeroDivisionError.
Proof.
  apply (hardy_kp_validation demo_table demo_table (scalar_array 60)
           (scalar_array 0) [1%nat]).
  - exact demo_labelled.
  - reflexivity.
Defined.

(** An object of another numeric type that equals the int 2 and prints
    as '2', such as [np.int64(2)] or [Fraction(2, 1)], is served as the
    int 2 is. *)
Lemma hardy_numeric_kp H P mlat mlt ch :
  hardy H P mlat mlt (PyNumber (2 # 1) "2") ch
  = hardy H P mlat mlt (PyInt 2) ch.
Proof. reflexivity. Qed.

(** C10: a float or a bool kp that equals one of the integers 0..6 (2.0,
    True) passes the assertion; its key 'K' + str(kp) ('K2.0', 'KTrue')
    is none of the labels K0..K6, so no row is selected and the loop
    leaves the four Epstein parameters at their initial int 0; the call
    then fails with ZeroDivisionError at the quotient S1/S2. *)
Theorem hardy_nonint_kp_fails H P mlat mlt sh kp k :
  labelled H ->
  hardy_shape mlat mlt = Ok sh ->
  In k kp_levels -> eq_int kp k = true ->
  (exists q, kp = PyFloat q) \/ (exists b, kp = PyBool b) ->
  assert (in_ints kp kp_levels) kp_msg = Ok tt /\
  select_kp H kp = [] /\
  (rows <- derived_columns (select_kp H kp) ;;
   iterrows (Arr (data mlt)) rows epstein_init)
  = Ok (mk_epstein (Scalar 0) (Scalar 0) (Scalar 0) (Scalar 0)) /\
  hardy H P mlat mlt kp "hp" = Raise ZeroDivisionError.
Proof.
  intros Hl Hs Hk E Hty.
  assert (Hin : in_ints kp kp_levels = true).
  { unfold in_ints. apply existsb_exists. now exists k. }
  assert (Hsel : select_kp H kp = []).
  { apply select_kp_no_label; [assumption|]. now apply key_not_a_label. }
  split; [now rewrite Hin|]. split; [assumption|].
  split; [rewrite Hsel; reflexivity|].
  now apply (hardy_no_rows H P mlat mlt kp sh).
Qed.

(** [hardy(60, 12, True)] on the demo table. *)
Lemma hardy_nonint_kp_fails_witness :
  assert (in_ints (PyBool true) kp_levels) kp_msg = Ok tt /\
  select_kp demo_table (PyBool true) = [] /\
  (rows <- derived_columns (select_kp demo_table (PyBool true)) ;;
   iterrows (Arr (data (scalar_array 12))) rows epstein_init)
  = Ok (mk_epstein (Scalar 0) (Scalar 0) (Scalar 0) (Scalar 0)) /\
  hardy demo_table demo_table (scalar_array 60) (scalar_array 12)
        (PyBool true) "hp" = Raise ZeroDivisionError.
Proof.
  apply (hardy_nonint_kp_fails demo_table demo_table (scalar_array 60)
           (scalar_array 12) [1%nat] (PyBool true) 1%Z).
  - exact demo_labelled.
  - reflexivity.
  - simpl. tauto.
  - reflexivity.
  - right. now exists true.
Defined.

End HardyProperties.

(** ** Properties of [EUV_conductance] *)

Module EUVProperties.

Import EUV InterpFacts EUVFacts HardyFacts.

(** The scaled production value of one table entry [P], as the
    specification writes it for the three calibrations. *)
Definition hall_formula (calibration : string) (F107 P : R) : R :=
  if String.eqb calibration "MoenBrekke1993"
  then fpow F107 0.53 * (0.81 * P + 0.54 * sqrt P)
  else if String.eqb calibration "MoenBrekke1993_alt"
  then fpow F107 0.53 * 1.35 * fpow P 0.79
  else fpow F107 0.5 * 1.8 * P.

Definition ped_formula (calibration : string) (F107 P : R) : R :=
  if String.eqb calibration "MoenBrekke1993"
  then fpow F107 0.49 * (0.34 * P + 0.93 * sqrt P)
  else if String.eqb calibration "MoenBrekke1993_alt"
  then fpow F107 0.49 * 1.27 * fpow P 0.65
  else fpow F107 0.667 * 0.5 * fpow P 0.667.

Lemma in_calibrations c :
  In c calibrations ->
  c = "MoenBrekke1993"%string \/ c = "MoenBrekke1993_alt"%string \/
  c = "Cousinsetal2015"%string.
Proof. unfold calibrations. simpl. intuition. Qed.

Lemma effective_in c : In (effective c) calibrations.
Proof.
  unfold effective. destruct (str_in c calibrations) eqn:E.
  - unfold str_in in E. apply existsb_exists in E.
    destruct E as (c' & Hc & E). apply String.eqb_eq in E. now subst.
  - left. reflexivity.
Qed.

Lemma effective_listed c : In c calibrations -> effective c = c.
Proof.
  intros H. apply in_calibrations in H.
  destruct H as [-> | [-> | ->]]; reflexivity.
Qed.

Lemma fpow_nonneg x y : 0 <= fpow x y.
Proof.
  unfold fpow, Rpower. destruct (Rlt_dec 0 x); [|lra].
  left. apply exp_pos.
Qed.

Lemma hall_formula_nonneg c F107 P : 0 <= P -> 0 <= hall_formula c F107 P.
Proof.
  intros HP. unfold hall_formula.
  pose proof (fpow_nonneg F107 0.53). pose proof (fpow_nonneg F107 0.5).
  pose proof (fpow_nonneg P 0.79). pose proof (sqrt_pos P).
  destruct (String.eqb c "MoenBrekke1993");
    [|destruct (String.eqb c "MoenBrekke1993_alt")]; nra.
Qed.

Lemma ped_formula_nonneg c F107 P : 0 <= P -> 0 <= ped_formula c F107 P.
Proof.
  intros HP. unfold ped_formula.
  pose proof (fpow_nonneg F107 0.49). pose proof (fpow_nonneg F107 0.667).
  pose proof (fpow_nonneg P 0.65). pose proof (fpow_nonneg P 0.667).
  pose proof (sqrt_pos P).
  destruct (String.eqb c "MoenBrekke1993");
    [|destruct (String.eqb c "MoenBrekke1993_alt")]; nra.
Qed.

Lemma nth_nonneg (l : list R) k :
  Forall (fun x => 0 <= x) l -> 0 <= nth k l 0.
Proof.
  intros H. destruct (Nat.lt_ge_cases k (List.length l)) as [L|L].
  - rewrite Forall_forall in H. apply H. now apply nth_In.
  - rewrite nth_overflow by assumption. lra.
Qed.

Section Production.

Variable PRODUCTION : list R.

Lemma hall_scaled_formula F107 c :
  In c calibrations ->
  hall_scaled PRODUCTION F107 c (calib_of c)
  = Ok (map (hall_formula c F107) PRODUCTION).
Proof.
  intros H. apply in_calibrations in H.
  destruct H as [-> | [-> | ->]]; unfold hall_scaled, hall_formula; simpl;
    try reflexivity.
  f_equal. apply map_ext. intros P. lra.
Qed.

Lemma ped_scaled_formula F107 c :
  In c calibrations ->
  ped_scaled PRODUCTION F107 c (calib_of c)
  = Ok (map (ped_formula c F107) PRODUCTION).
Proof.
  intros H. apply in_calibrations in H.
  destruct H as [-> | [-> | ->]]; reflexivity.
Qed.

Lemma interpolate_ok (y : list R) sza :
  List.length y = 1201%nat ->
  interpolate (Ok y) sza = Ok (map (call_linear MODELSZAS y) (data sza)).
Proof.
  intros H. unfold interpolate, interp1d. cbn [bind].
  rewrite MODELSZAS_length, H. reflexivity.
Qed.

(** One channel on well-formed inputs. *)
Definition clamped (y : list R) (sza : ndarray) : ndarray :=
  mk_ndarray (Np.shape sza) (clamp0 (map (call_linear MODELSZAS y) (data sza))).

Lemma euv_one_ok (y : list R) sza :
  List.length y = 1201%nat -> wf_ndarray sza ->
  euv_one (Ok y) sza = Ok (clamped y sza).
Proof.
  intros Hy Hw. unfold euv_one. rewrite (interpolate_ok y sza Hy). cbn [bind].
  unfold reshape, clamp0. rewrite !length_map, Hw, Nat.eqb_refl. reflexivity.
Qed.

Lemma euv_hall_ok sza F107 c :
  List.length PRODUCTION = 1201%nat -> wf_ndarray sza ->
  euv_hall PRODUCTION sza F107 c
  = Ok (clamped (map (hall_formula (effective c) F107) PRODUCTION) sza).
Proof.
  intros Hp Hw. unfold euv_hall.
  rewrite (hall_scaled_formula F107 _ (effective_in c)).
  apply euv_one_ok; [now rewrite length_map | assumption].
Qed.

Lemma euv_ped_ok sza F107 c :
  List.length PRODUCTION = 1201%nat -> wf_ndarray sza ->
  euv_ped PRODUCTION sza F107 c
  = Ok (clamped (map (ped_formula (effective c) F107) PRODUCTION) sza).
Proof.
  intros Hp Hw. unfold euv_ped.
  rewrite (ped_scaled_formula F107 _ (effective_in c)).
  apply euv_one_ok; [now rewrite length_map | assumption].
Qed.

(** The function reads its channel argument through [lower] only. *)
Lemma EUV_channel_ext sza F107 ch ch' c :
  lower ch = lower ch' ->
  EUV_conductance PRODUCTION sza F107 ch c
  = EUV_conductance PRODUCTION sza F107 ch' c.
Proof. intros E. unfold EUV_conductance. now rewrite E. Qed.

Lemma valid_channel ch :
  str_in (lower ch) Hardy.channels = true ->
  lower ch = "h"%string \/ lower ch = "p"%string \/ lower ch = "hp"%string.
Proof.
  unfold str_in, Hardy.channels. simpl. intros H.
  repeat (apply orb_true_iff in H; destruct H as [H|H]);
    try (apply String.eqb_eq in H; auto); discriminate.
Qed.

(** On well-formed inputs every valid channel returns. *)
Lemma EUV_returns sza F107 ch c :
  str_in (lower ch) Hardy.channels = true ->
  List.length PRODUCTION = 1201%nat -> wf_ndarray sza ->
  let yh := map (hall_formula (effective c) F107) PRODUCTION in
  let yp := map (ped_formula (effective c) F107) PRODUCTION in
  snd (EUV_conductance PRODUCTION sza F107 ch c)
  = Ok (if String.eqb (lower ch) "h" then One (clamped yh sza)
        else if String.eqb (lower ch) "p" then One (clamped yp sza)
        else Two (clamped yh sza) (clamped yp sza)).
Proof.
  intros Hc Hp Hw yh yp. apply valid_channel in Hc.
  destruct Hc as [E|[E|E]]; rewrite E; simpl String.eqb; cbv iota.
  - rewrite (EUV_channel_ext sza F107 ch "h" c E).
    apply EUV_h_iff. now apply euv_hall_ok.
  - rewrite (EUV_channel_ext sza F107 ch "p" c E).
    apply EUV_p_iff. now apply euv_ped_ok.
  - rewrite (EUV_channel_ext sza F107 ch "hp" c E).
    apply EUV_hp_iff. split; [now apply euv_hall_ok | now apply euv_ped_ok].
Qed.

Lemma nth_map_default (g : R -> R) (l : list R) k :
  (k < List.length l)%nat -> nth k (map g l) 0 = g (nth k l 0).
Proof.
  intros H. rewrite (nth_indep _ 0 (g 0)) by (now rewrite length_map).
  apply map_nth.
Qed.

Lemma interpolate_node (y : list R) sza i k :
  List.length y = 1201%nat -> (k < 1201)%nat ->
  nth_error (data sza) i = Some (INR k * 0.1) ->
  exists sig, interpolate (Ok y) sza = Ok sig /\
              nth_error sig i = Some (nth k y 0).
Proof.
  intros Hy Hk Hi. rewrite (interpolate_ok y sza Hy).
  eexists. split; [reflexivity|].
  rewrite nth_error_map, Hi. simpl. f_equal.
  rewrite <- (MODELSZAS_nth k Hk). now apply call_linear_node.
Qed.

(** C3: for a non-negative F107 and a production table of non-negative
    values, [EUV_conductance] interpolates over the grid 0, 0.1, ..., 120
    the production table scaled by the formula of the calibration, and
    returns the interpolated arrays clamped at 0; at a solar zenith angle
    on the grid the value before the clamp is the scaled table value of
    that node, F107^0.53 * (0.81*P + 0.54*sqrt(P)) and F107^0.49 *
    (0.34*P + 0.93*sqrt(P)) for MoenBrekke1993, F107^0.53 * 1.35 * P^0.79
    and F107^0.49 * 1.27 * P^0.65 for MoenBrekke1993_alt, F107^0.5 * 1.8 *
    P and F107^0.667 * 0.5 * P^0.667 for Cousinsetal2015, and the clamp
    leaves it as it is. *)
Theorem EUV_scaled_interpolant F107 c sza i k :
  In c calibrations ->
  0 <= F107 ->
  Forall (fun P => 0 <= P) PRODUCTION ->
  List.length PRODUCTION = 1201%nat ->
  wf_ndarray sza ->
  (k < 1201)%nat ->
  nth_error (data sza) i = Some (INR k * 0.1) ->
  (List.length MODELSZAS = 1201%nat /\ nth k MODELSZAS 0 = INR k * 0.1) /\
  exists sigh sigp,
    interpolate (hall_scaled PRODUCTION F107 c (calib_of c)) sza = Ok sigh /\
    interpolate (ped_scaled PRODUCTION F107 c (calib_of c)) sza = Ok sigp /\
    snd (EUV_conductance PRODUCTION sza F107 "hp" c)
    = Ok (Two (mk_ndarray (Np.shape sza) (clamp0 sigh))
              (mk_ndarray (Np.shape sza) (clamp0 sigp))) /\
    (let P := nth k PRODUCTION 0 in
     (c = "MoenBrekke1993"%string ->
      nth_error sigh i = Some (fpow F107 0.53 * (0.81 * P + 0.54 * sqrt P)) /\
      nth_error sigp i = Some (fpow F107 0.49 * (0.34 * P + 0.93 * sqrt P))) /\
     (c = "MoenBrekke1993_alt"%string ->
      nth_error sigh i = Some (fpow F107 0.53 * 1.35 * fpow P 0.79) /\
      nth_error sigp i = Some (fpow F107 0.49 * 1.27 * fpow P 0.65)) /\
     (c = "Cousinsetal2015"%string ->
      nth_error sigh i = Some (fpow F107 0.5 * 1.8 * P) /\
      nth_error sigp i = Some (fpow F107 0.667 * 0.5 * fpow P 0.667))) /\
    nth_error (clamp0 sigh) i = nth_error sigh i /\
    nth_error (clamp0 sigp) i = nth_error sigp i.
Proof.
  intros Hc HF HP Hl Hw Hk Hi.
  split; [split; [apply MODELSZAS_length | now apply MODELSZAS_nth]|].
  pose proof (EUV_returns sza F107 "hp" c eq_refl Hl Hw) as E.
  cbv zeta in E. rewrite (effective_listed c Hc) in E.
  change (String.eqb (lower "hp") "h") with false in E.
  change (String.eqb (lower "hp") "p") with false in E. cbv iota in E.
  rewrite (hall_scaled_formula F107 c Hc), (ped_scaled_formula F107 c Hc).
  rewrite !interpolate_ok by (now rewrite length_map).
  exists (map (call_linear MODELSZAS (map (hall_formula c F107) PRODUCTION))
              (data sza)),
         (map (call_linear MODELSZAS (map (ped_formula c F107) PRODUCTION))
              (data sza)).
  split; [reflexivity|]. split; [reflexivity|]. split; [exact E|].
  assert (Nh : nth_error (map (call_linear MODELSZAS
                                 (map (hall_formula c F107) PRODUCTION))
                              (data sza)) i
               = Some (hall_formula c F107 (nth k PRODUCTION 0))).
  { rewrite nth_error_map, Hi. simpl. f_equal.
    rewrite <- (MODELSZAS_nth k Hk).
    rewrite call_linear_node by (rewrite ?length_map; lia).
    apply nth_map_default. lia. }
  assert (Np : nth_error (map (call_linear MODELSZAS
                                 (map (ped_formula c F107) PRODUCTION))
                              (data sza)) i
               = Some (ped_formula c F107 (nth k PRODUCTION 0))).
  { rewrite nth_error_map, Hi. simpl. f_equal.
    rewrite <- (MODELSZAS_nth k Hk).
    rewrite call_linear_node by (rewrite ?length_map; lia).
    apply nth_map_default. lia. }
  pose proof (nth_nonneg PRODUCTION k HP) as HPk.
  split; [|split].
  - cbv zeta. rewrite Nh, Np.
    split; [|split]; intros ->; unfold hall_formula, ped_formula; simpl;
      (split; [|reflexivity]); try reflexivity; f_equal; lra.
  - unfold clamp0 at 1. rewrite nth_error_map, Nh. simpl. f_equal.
    pose proof (hall_formula_nonneg c F107 _ HPk). unfold Rltb.
    destruct (Rlt_dec _ 0); [lra | reflexivity].
  - unfold clamp0 at 1. rewrite nth_error_map, Np. simpl. f_equal.
    pose proof (ped_formula_nonneg c F107 _ HPk). unfold Rltb.
    destruct (Rlt_dec _ 0); [lra | reflexivity].
Qed.

(** C6: an unlisted calibration name is not an error: the call prints the
    notice, continues with MoenBrekke1993 and returns what the call with
    calibration MoenBrekke1993 returns, which prints nothing; on a valid
    channel, a table of 1201 values and a well-formed sza it returns. *)
Theorem EUV_calibration_fallback sza F107 ch c :
  str_in c calibrations = false ->
  snd (EUV_conductance PRODUCTION sza F107 ch c)
  = snd (EUV_conductance PRODUCTION sza F107 ch "MoenBrekke1993") /\
  fst (EUV_conductance PRODUCTION sza F107 ch "MoenBrekke1993") = [] /\
  (str_in (lower ch) Hardy.channels = true ->
   fst (EUV_conductance PRODUCTION sza F107 ch c)
   = [("Invalid calibration: " ++ c ++ ". Using MoenBrekke1993")%string] /\
   (List.length PRODUCTION = 1201%nat -> wf_ndarray sza ->
    exists r, snd (EUV_conductance PRODUCTION sza F107 ch c) = Ok r /\
              arrays r <> [])).
Proof.
  intros Hc. unfold EUV_conductance.
  change (str_in "MoenBrekke1993" calibrations) with true. rewrite Hc.
  simpl negb. cbv iota.
  destruct (str_in (lower ch) Hardy.channels) eqn:Hch; unfold assert.
  - split; [reflexivity|]. split; [reflexivity|]. intros _.
    split; [reflexivity|]. intros Hp Hw.
    pose proof (EUV_returns sza F107 ch c Hch Hp Hw) as E.
    unfold EUV_conductance in E. rewrite Hch, Hc in E. unfold assert in E.
    simpl negb in E. cbv iota in E. simpl snd.
    eexists. split; [exact E|].
    destruct (String.eqb (lower ch) "h"); [discriminate|].
    destruct (String.eqb (lower ch) "p"); discriminate.
  - split; [reflexivity|]. split; [reflexivity|]. discriminate.
Qed.

(** C7: for a non-negative F107 and a production table of 1201
    non-negative values, on a valid channel and a well-formed sza the
    call returns, for every value of sza; the scaled table handed to the
    interpolant holds non-negative numbers; each returned element is the
    interpolant at the element of sza, or 0 where that is negative, hence
    >= 0; above 120 degrees the interpolant is the line through the last
    two nodes and at or below 0 degrees the line through the first
    two. *)
Theorem EUV_extrapolation_clamp sza F107 ch c :
  str_in (lower ch) Hardy.channels = true ->
  0 <= F107 ->
  Forall (fun P => 0 <= P) PRODUCTION ->
  List.length PRODUCTION = 1201%nat ->
  wf_ndarray sza ->
  (exists r,
     snd (EUV_conductance PRODUCTION sza F107 ch c) = Ok r /\
     arrays r <> [] /\
     Forall (fun a =>
               (exists y,
                  (hall_scaled PRODUCTION F107 (effective c)
                               (calib_of (effective c)) = Ok y \/
                   ped_scaled PRODUCTION F107 (effective c)
                              (calib_of (effective c)) = Ok y) /\
                  Forall (fun v => 0 <= v) y /\
                  data a =
                    map (fun v =>
                           if Rltb (call_linear MODELSZAS y v) 0 then 0
                           else call_linear MODELSZAS y v) (data sza)) /\
               Forall (fun v => 0 <= v) (data a))
            (arrays r)) /\
  (forall y v, 120 < v ->
     call_linear MODELSZAS y v
     = (nth 1200 y 0 - nth 1199 y 0) / 0.1 * (v - 119.9) + nth 1199 y 0) /\
  (forall y v, v <= 0 ->
     call_linear MODELSZAS y v
     = (nth 1 y 0 - nth 0 y 0) / 0.1 * (v - 0) + nth 0 y 0).
Proof.
  intros Hch HF HP Hp Hw.
  assert (Nh : Forall (fun v => 0 <= v)
                 (map (hall_formula (effective c) F107) PRODUCTION)).
  { apply Forall_forall. intros v Hv. apply in_map_iff in Hv.
    destruct Hv as (x & <- & Hx). apply hall_formula_nonneg.
    revert x Hx. now apply Forall_forall. }
  assert (Nq : Forall (fun v => 0 <= v)
                 (map (ped_formula (effective c) F107) PRODUCTION)).
  { apply Forall_forall. intros v Hv. apply in_map_iff in Hv.
    destruct Hv as (x & <- & Hx). apply ped_formula_nonneg.
    revert x Hx. now apply Forall_forall. }
  split; [|split; [apply call_linear_above | apply call_linear_below]].
  pose proof (EUV_returns sza F107 ch c Hch Hp Hw) as E. cbv zeta in E.
  eexists. split; [exact E|].
  assert (Hall : forall y,
             Forall (fun v => 0 <= v) (data (clamped y sza))).
  { intros y. unfold clamped, clamp0. simpl data. rewrite map_map.
    apply Forall_forall. intros v Hv. apply in_map_iff in Hv.
    destruct Hv as (x & <- & _). unfold Rltb.
    destruct (Rlt_dec (call_linear MODELSZAS y x) 0); lra. }
  assert (Hh : exists y,
             (hall_scaled PRODUCTION F107 (effective c)
                          (calib_of (effective c)) = Ok y \/
              ped_scaled PRODUCTION F107 (effective c)
                         (calib_of (effective c)) = Ok y) /\
             Forall (fun v => 0 <= v) y /\
             data (clamped (map (hall_formula (effective c) F107) PRODUCTION)
                           sza) =
               map (fun v =>
                      if Rltb (call_linear MODELSZAS y v) 0 then 0
                      else call_linear MODELSZAS y v) (data sza)).
  { eexists. split; [left; apply hall_scaled_formula, effective_in|].
    split; [exact Nh|].
    unfold clamped, clamp0. simpl data. now rewrite map_map. }
  assert (Hq : exists y,
             (hall_scaled PRODUCTION F107 (effective c)
                          (calib_of (effective c)) = Ok y \/
              ped_scaled PRODUCTION F107 (effective c)
                         (calib_of (effective c)) = Ok y) /\
             Forall (fun v => 0 <= v) y /\
             data (clamped (map (ped_formula (effective c) F107) PRODUCTION)
                           sza) =
               map (fun v =>
                      if Rltb (call_linear MODELSZAS y v) 0 then 0
                      else call_linear MODELSZAS y v) (data sza)).
  { eexists. split; [right; apply ped_scaled_formula, effective_in|].
    split; [exact Nq|].
    unfold clamped, clamp0. simpl data. now rewrite map_map. }
  destruct (String.eqb (lower ch) "h");
    [|destruct (String.eqb (lower ch) "p")]; simpl arrays;
    (split; [discriminate|]); repeat constructor; auto.
Qed.

End Production.

(** A production table of the right length and a sample call. *)
Definition demo_production : list R := repeat 1 1201.

Lemma demo_production_length : List.length demo_production = 1201%nat.
Proof. apply repeat_length. Qed.

Lemma demo_production_nonneg : Forall (fun P => 0 <= P) demo_production.
Proof.
  apply Forall_forall. intros x Hx. apply repeat_spec in Hx. subst x. lra.
Qed.

(** A table that falls to 0 at 120 degrees. *)
Definition demo_falling : list R :=
  map (fun k => INR (1200 - k)) (seq 0 1201).

Lemma demo_falling_length : List.length demo_falling = 1201%nat.
Proof. unfold demo_falling. now rewrite length_map, length_seq. Qed.

Lemma demo_falling_nonneg : Forall (fun P => 0 <= P) demo_falling.
Proof.
  apply Forall_forall. intros x Hx. apply in_map_iff in Hx.
  destruct Hx as (k & <- & _). apply pos_INR.
Qed.

Lemma EUV_scaled_interpolant_witness :
  (List.length MODELSZAS = 1201%nat /\
   nth 600 MODELSZAS 0 = INR 600 * 0.1) /\
  exists sigh sigp,
    interpolate (hall_scaled demo_falling 100 "MoenBrekke1993_alt"
                             (calib_of "MoenBrekke1993_alt"))
                (scalar_array (INR 600 * 0.1)) = Ok sigh /\
    interpolate (ped_scaled demo_falling 100 "MoenBrekke1993_alt"
                            (calib_of "MoenBrekke1993_alt"))
                (scalar_array (INR 600 * 0.1)) = Ok sigp /\
    snd (EUV_conductance demo_falling (scalar_array (INR 600 * 0.1)) 100
           "hp" "MoenBrekke1993_alt")
    = Ok (Two (mk_ndarray [] (clamp0 sigh)) (mk_ndarray [] (clamp0 sigp))) /\
    (let P := nth 600 demo_falling 0 in
     ("MoenBrekke1993_alt"%string = "MoenBrekke1993"%string ->
      nth_error sigh 0 = Some (fpow 100 0.53 * (0.81 * P + 0.54 * sqrt P)) /\
      nth_error sigp 0 = Some (fpow 100 0.49 * (0.34 * P + 0.93 * sqrt P))) /\
     ("MoenBrekke1993_alt"%string = "MoenBrekke1993_alt"%string ->
      nth_error sigh 0 = Some (fpow 100 0.53 * 1.35 * fpow P 0.79) /\
      nth_error sigp 0 = Some (fpow 100 0.49 * 1.27 * fpow P 0.65)) /\
     ("MoenBrekke1993_alt"%string = "Cousinsetal2015"%string ->
      nth_error sigh 0 = Some (fpow 100 0.5 * 1.8 * P) /\
      nth_error sigp 0 = Some (fpow 100 0.667 * 0.5 * fpow P 0.667))) /\
    nth_error (clamp0 sigh) 0 = nth_error sigh 0 /\
    nth_error (clamp0 sigp) 0 = nth_error sigp 0.
Proof.
  apply (EUV_scaled_interpolant demo_falling 100 "MoenBrekke1993_alt"
           (scalar_array (INR 600 * 0.1)) 0 600).
  - simpl. tauto.
  - lra.
  - exact demo_falling_nonneg.
  - exact demo_falling_length.
  - reflexivity.
  - lia.
  - reflexivity.
Defined.

Lemma EUV_calibration_fallback_witness :
  snd (EUV_conductance demo_production (scalar_array 95) 100 "hp" "bogus")
  = snd (EUV_conductance demo_production (scalar_array 95) 100 "hp"
           "MoenBrekke1993") /\
  fst (EUV_conductance demo_production (scalar_array 95) 100 "hp"
         "MoenBrekke1993") = [] /\
  (str_in (lower "hp") Hardy.channels = true ->
   fst (EUV_conductance demo_production (scalar_array 95) 100 "hp" "bogus")
   = [("Invalid calibration: " ++ "bogus" ++ ". Using MoenBrekke1993")%string]
   /\
   (List.length demo_production = 1201%nat -> wf_ndarray (scalar_array 95) ->
    exists r,
      snd (EUV_conductance demo_production (scalar_array 95) 100 "hp" "bogus")
      = Ok r /\ arrays r <> [])).
Proof.
  apply (EUV_calibration_fallback demo_production (scalar_array 95) 100 "hp"
           "bogus").
  reflexivity.
Defined.

Lemma EUV_extrapolation_clamp_witness :
  (exists r,
     snd (EUV_conductance demo_falling (scalar_array 130) 100 "hp"
            "MoenBrekke1993") = Ok r /\
     arrays r <> [] /\
     Forall (fun a =>
               (exists y,
                  (hall_scaled demo_falling 100 (effective "MoenBrekke1993")
                     (calib_of (effective "MoenBrekke1993")) = Ok y \/
                   ped_scaled demo_falling 100 (effective "MoenBrekke1993")
                     (calib_of (effective "MoenBrekke1993")) = Ok y) /\
                  Forall (fun v => 0 <= v) y /\
                  data a =
                    map (fun v =>
                           if Rltb (call_linear MODELSZAS y v) 0 then 0
                           else call_linear MODELSZAS y v)
                        (data (scalar_array 130))) /\
               Forall (fun v => 0 <= v) (data a))
            (arrays r)) /\
  (forall y v, 120 < v ->
     call_linear MODELSZAS y v
     = (nth 1200 y 0 - nth 1199 y 0) / 0.1 * (v - 119.9) + nth 1199 y 0) /\
  (forall y v, v <= 0 ->
     call_linear MODELSZAS y v
     = (nth 1 y 0 - nth 0 y 0) / 0.1 * (v - 0) + nth 0 y 0).
Proof.
  apply (EUV_extrapolation_clamp demo_falling (scalar_array 130) 100 "hp"
           "MoenBrekke1993").
  - reflexivity.
  - lra.
  - exact demo_falling_nonneg.
  - exact demo_falling_length.
  - reflexivity.
Defined.

End EUVProperties.

(** ** Properties that span the three functions *)

Module CombinedProperties.

Import Hardy EUV Combiner BroadcastFacts HardyFacts EUVFacts Demo.
Import HardyProperties EUVProperties.

Lemma reshape_shape xs s a : reshape xs s = Ok a -> Np.shape a = s.
Proof. intros E. apply reshape_inv in E. now destruct E as [-> _]. Qed.

(** *** Channel consistency *)

(** C8: a call with channel hp returns the pair (Hall, Pedersen), and
    its two arrays are exactly the arrays that the calls with channel h
    and with channel p return on the same inputs; the hp call returns if
    and only if both of these do.  This holds for [EUV_conductance], which
    also prints the same in the three calls, and for [hardy]. *)
Theorem channel_consistency PRODUCTION sza F107 calibration H P mlat mlt kp :
  (forall ah ap,
     snd (EUV_conductance PRODUCTION sza F107 "hp" calibration)
     = Ok (Two ah ap) <->
     snd (EUV_conductance PRODUCTION sza F107 "h" calibration) = Ok (One ah) /\
     snd (EUV_conductance PRODUCTION sza F107 "p" calibration) = Ok (One ap)) /\
  (forall r,
     snd (EUV_conductance PRODUCTION sza F107 "hp" calibration) = Ok r ->
     exists ah ap, r = Two ah ap) /\
  (fst (EUV_conductance PRODUCTION sza F107 "hp" calibration)
   = fst (EUV_conductance PRODUCTION sza F107 "h" calibration) /\
   fst (EUV_conductance PRODUCTION sza F107 "hp" calibration)
   = fst (EUV_conductance PRODUCTION sza F107 "p" calibration)) /\
  (forall ah ap,
     hardy H P mlat mlt kp "hp" = Ok (Two ah ap) <->
     hardy H P mlat mlt kp "h" = Ok (One ah) /\
     hardy H P mlat mlt kp "p" = Ok (One ap)) /\
  (forall r,
     hardy H P mlat mlt kp "hp" = Ok r -> exists ah ap, r = Two ah ap).
Proof.
  split.
  { intros ah ap. rewrite EUV_hp_iff, EUV_h_iff, EUV_p_iff. tauto. }
  split; [apply EUV_hp_two|].
  split.
  { unfold EUV_conductance.
    change (str_in (lower "hp") channels) with true.
    change (str_in (lower "h") channels) with true.
    change (str_in (lower "p") channels) with true.
    unfold assert. cbv iota.
    destruct (str_in calibration calibrations); split; reflexivity. }
  split; [|apply hardy_hp_two].
  intros ah ap. rewrite hardy_hp_iff, hardy_h_iff, hardy_p_iff. tauto.
Qed.

Lemma channel_consistency_witness :
  hardy demo_table demo_table (scalar_array 60) (scalar_array 0) (PyInt 0) "h"
  = Ok (One (mk_ndarray [1%nat] [0.3])) /\
  hardy demo_table demo_table (scalar_array 60) (scalar_array 0) (PyInt 0) "p"
  = Ok (One (mk_ndarray [1%nat] [0.3])).
Proof.
  apply (proj1 (proj1 (proj2 (proj2 (proj2
           (channel_consistency demo_production (scalar_array 95) 100
              "MoenBrekke1993" demo_table demo_table (scalar_array 60)
              (scalar_array 0) (PyInt 0))))) _ _)).
  exact demo_hardy.
Defined.

(** *** The sum of the two models *)

Lemma map_pair_eta {A B : Type} (l : list (A * B)) :
  map (fun p => (fst p, snd p)) l = l.
Proof.
  induction l as [|[a b] l IH]; simpl; [reflexivity | now rewrite IH].
Qed.

(** Every elementwise operation on two arrays is the operation on their
    broadcast pairs. *)
Lemma np_bin_pairs {A B C : Type} (f : A -> B -> C) (a : list A) (b : list B) :
  np_bin f (Arr a) (Arr b)
  = (ps <- np_bin pair (Arr a) (Arr b) ;;
     Ok (np_un (fun p => f (fst p) (snd p)) ps)).
Proof.
  unfold np_bin.
  destruct a as [|x [|x' a]]; destruct b as [|y [|y' b]];
    try reflexivity;
    try (cbn [bind np_un]; now rewrite map_map).
  destruct (_ =? _)%nat; [|reflexivity].
  cbn [bind np_un]. now rewrite map_pair_eta.
Qed.

Lemma pairs_same_length {A B : Type} (a : list A) (b : list B) :
  List.length a = List.length b ->
  np_bin pair (Arr a) (Arr b) = Ok (Arr (combine a b)).
Proof.
  intros E. unfold np_bin.
  destruct a as [|x [|x' a]]; destruct b as [|y [|y' b]];
    try discriminate; try reflexivity.
  rewrite E, Nat.eqb_refl. now rewrite map_pair_eta.
Qed.

(** [a] is [hc + EUV + starlight], element by element over the broadcast
    pairs of the two flat arrays, in the shape [sh]. *)
Definition summed (hc EUV : ndarray) (starlight : R) (sh : list nat)
  (a : ndarray) : Prop :=
  Np.shape a = sh /\
  exists ps,
    np_bin pair (Arr (data hc)) (Arr (data EUV)) = Ok (Arr ps) /\
    data a = map (fun p => fst p + snd p + starlight) ps /\
    (List.length (data hc) = List.length (data EUV) ->
     ps = combine (data hc) (data EUV)).

Lemma total_inv hc EUV starlight sh a :
  total hc EUV starlight sh = Ok a -> summed hc EUV starlight sh a.
Proof.
  unfold total, np_add. intros E.
  apply bind_inv in E. destruct E as (s1 & E1 & E).
  rewrite np_bin_pairs in E1.
  apply bind_inv in E1. destruct E1 as (ps & Eps & E1).
  injection E1 as <-.
  destruct ps as [p|ps].
  { unfold np_bin in Eps.
    destruct (data hc) as [|x [|x' l]]; destruct (data EUV) as [|y [|y' l']];
      try discriminate. }
  simpl in E. apply reshape_inv in E. destruct E as [-> _].
  split; [reflexivity|]. exists ps. split; [assumption|].
  split; [simpl; now rewrite map_map|].
  intros El. rewrite (pairs_same_length _ _ El) in Eps. now injection Eps.
Qed.

Section Collaborators.

Variable H P : list coef_row.
Variable PRODUCTION : list R.
Variable geo2mag : Z -> list R -> list R -> result (list R * list R).
Variable mag2geo : Z -> list R -> list R -> result (list R * list R).
Variable mlon2mlt : Z -> list R -> datetime -> result (list R).
Variable sunlight_sza : list R -> list R -> datetime -> result (list R).

Lemma hardy_EUV_snd lon lat kp time s starlight F107 dipole calibration :
  snd (hardy_EUV H P PRODUCTION geo2mag mag2geo mlon2mlt sunlight_sza
         lon lat kp time s starlight F107 dipole calibration)
  = (x <- prepare geo2mag mag2geo mlon2mlt sunlight_sza lon lat time s dipole ;;
     let '(sh, mlat, mlt, sza, hop) := x in
     euv <- snd (EUV_conductance PRODUCTION (flat sza) F107 hop calibration) ;;
     combine_models H P euv sh mlat mlt kp hop starlight).
Proof.
  unfold hardy_EUV.
  destruct (prepare geo2mag mag2geo mlon2mlt sunlight_sza lon lat time s dipole)
    as [[[[[sh mlat] mlt] sza] hop]|e]; [|reflexivity].
  cbn [bind]. now destruct (EUV_conductance _ _ _ _ _).
Qed.

(** The inputs that [hardy_EUV] derives for the two models. *)
Definition derived (lon lat : ndarray) (time : datetime) (dipole : bool)
  (sh : list nat) (mlat mlt sza : list R) : Prop :=
  broadcast_shape (Np.shape (array_ndmin1 lat)) (Np.shape (array_ndmin1 lon))
  = Ok sh /\
  exists mlon glat glon,
    (if dipole
     then mlat = data lat /\ mlon = data lon /\
          mag2geo (year time) (data lat) (data lon) = Ok (glat, glon)
     else geo2mag (year time) (data lat) (data lon) = Ok (mlat, mlon) /\
          glat = data lat /\ glon = data lon) /\
    mlon2mlt (year time) mlon time = Ok mlt /\
    sunlight_sza glat glon time = Ok sza.

Lemma prepare_inv lon lat time s dipole sh mlat mlt sza hop :
  prepare geo2mag mag2geo mlon2mlt sunlight_sza lon lat time s dipole
  = Ok (sh, mlat, mlt, sza, hop) ->
  str_in (lower s) hop_tokens = true /\
  hop_of s = Some hop /\
  derived lon lat time dipole sh mlat mlt sza.
Proof.
  unfold prepare, derived. rewrite !flatten_ndmin1. intros E.
  apply bind_inv in E. destruct E as ([] & Ea & E).
  apply bind_inv in E. destruct E as (sh' & Es & E).
  apply bind_inv in E. destruct E as ([[[mlat' mlon] glat] glon] & Ef & E).
  apply bind_inv in E. destruct E as (mlt' & Em & E).
  apply bind_inv in E. destruct E as (sza' & Ez & E).
  apply bind_inv in E. destruct E as (hop' & Eh & E).
  injection E as -> -> -> -> ->.
  split.
  { unfold assert in Ea. now destruct (str_in (lower s) hop_tokens). }
  split.
  { unfold read_local in Eh. destruct (hop_of s); [|discriminate].
    now injection Eh as ->. }
  split; [assumption|].
  exists mlon, glat, glon. split; [|now split].
  destruct dipole.
  - apply bind_inv in Ef. destruct Ef as ([g1 g2] & Eg & Ef).
    injection Ef as <- <- <- <-. now repeat split.
  - apply bind_inv in Ef. destruct Ef as ([m1 m2] & Eg & Ef).
    injection Ef as <- <- <- <-. now repeat split.
Qed.

Lemma hop_of_valid s hop :
  str_in (lower s) hop_tokens = true -> hop_of s = Some hop ->
  (In (lower s) ["hall"; "h"]%string /\ hop = "h"%string) \/
  (In (lower s) ["pedersen"; "p"]%string /\ hop = "p"%string) \/
  (In (lower s) ["hp"; "hallandpedersen"]%string /\ hop = "hp"%string).
Proof.
  unfold str_in, hop_tokens, hop_of. intros Hv. simpl in Hv.
  repeat (apply orb_true_iff in Hv; destruct Hv as [Hv|Hv]);
    try discriminate; apply String.eqb_eq in Hv; rewrite Hv;
    simpl; intros E; injection E as <-; tauto.
Qed.

(** What one returned array is made of. *)
Lemma combine_models_inv euv sh mlat mlt kp hop starlight r :
  combine_models H P euv sh mlat mlt kp hop starlight = Ok r ->
  exists hall ped,
    hardy H P (flat mlat) (flat mlt) kp "hp" = Ok (Two hall ped) /\
    ((hop = "h"%string /\ exists EUV a,
        euv = One EUV /\ r = One a /\ summed hall EUV starlight sh a) \/
     (hop = "p"%string /\ exists EUV a,
        euv = One EUV /\ r = One a /\ summed ped EUV starlight sh a) \/
     (hop <> "h"%string /\ hop <> "p"%string /\ exists EUVh EUVp ah ap,
        euv = Two EUVh EUVp /\ r = Two ah ap /\
        summed hall EUVh starlight sh ah /\
        summed ped EUVp starlight sh ap)).
Proof.
  unfold combine_models. intros E.
  apply bind_inv in E. destruct E as (hc & Eh & E).
  destruct (hardy_hp_two _ _ _ _ _ _ Eh) as (hall & ped & ->).
  exists hall, ped. split; [assumption|].
  destruct (String.eqb_spec hop "h") as [->|Nh].
  - left. split; [reflexivity|].
    destruct euv as [EUV| |]; try discriminate.
    apply bind_inv in E. destruct E as (a & Et & E). injection E as <-.
    exists EUV, a. split; [reflexivity|]. split; [reflexivity|].
    now apply total_inv.
  - destruct (String.eqb_spec hop "p") as [->|Np].
    + right; left. split; [reflexivity|].
      destruct euv as [EUV| |]; try discriminate.
      apply bind_inv in E. destruct E as (a & Et & E). injection E as <-.
      exists EUV, a. split; [reflexivity|]. split; [reflexivity|].
    now apply total_inv.
    + right; right. split; [assumption|]. split; [assumption|].
      destruct euv as [|EUVh EUVp|]; try discriminate.
      apply bind_inv in E. destruct E as (ah & Eth & E).
      apply bind_inv in E. destruct E as (ap & Etp & E). injection E as <-.
      exists EUVh, EUVp, ah, ap. split; [reflexivity|]. split; [reflexivity|].
      split; now apply total_inv.
Qed.

(** C4, as the code has it: whenever [hardy_EUV] returns, every channel
    of its result is, element by element, the Hardy component (from
    [hardy] at the derived mlat, mlt and kp) plus the EUV component (from
    [EUV_conductance] at the derived sza, F107 and calibration) plus
    starlight, in the broadcast shape of lat and lon after each has been
    taken with ndmin = 1; scalar lat and lon so give shape (1,). *)
Theorem hardy_EUV_sum lon lat kp time s starlight F107 dipole calibration r :
  snd (hardy_EUV H P PRODUCTION geo2mag mag2geo mlon2mlt sunlight_sza
         lon lat kp time s starlight F107 dipole calibration) = Ok r ->
  str_in (lower s) hop_tokens = true /\
  exists sh mlat mlt sza hall ped,
    derived lon lat time dipole sh mlat mlt sza /\
    hardy H P (flat mlat) (flat mlt) kp "hp" = Ok (Two hall ped) /\
    ((In (lower s) ["hall"; "h"]%string /\ exists EUV a,
        snd (EUV_conductance PRODUCTION (flat sza) F107 "h" calibration)
        = Ok (One EUV) /\
        r = One a /\ summed hall EUV starlight sh a) \/
     (In (lower s) ["pedersen"; "p"]%string /\ exists EUV a,
        snd (EUV_conductance PRODUCTION (flat sza) F107 "p" calibration)
        = Ok (One EUV) /\
        r = One a /\ summed ped EUV starlight sh a) \/
     (In (lower s) ["hp"; "hallandpedersen"]%string /\
      exists EUVh EUVp ah ap,
        snd (EUV_conductance PRODUCTION (flat sza) F107 "hp" calibration)
        = Ok (Two EUVh EUVp) /\
        r = Two ah ap /\
        summed hall EUVh starlight sh ah /\
        summed ped EUVp starlight sh ap)).
Proof.
  rewrite hardy_EUV_snd. intros E.
  apply bind_inv in E.
  destruct E as ([[[[sh mlat] mlt] sza] hop] & Ep & E).
  apply bind_inv in E. destruct E as (euv & Ee & E).
  apply prepare_inv in Ep. destruct Ep as (Hv & Hh & Hd).
  split; [assumption|].
  apply combine_models_inv in E.
  destruct E as (hall & ped & Eh & E).
  exists sh, mlat, mlt, sza, hall, ped.
  split; [assumption|]. split; [assumption|].
  destruct (hop_of_valid s hop Hv Hh) as [[Hs ->]|[[Hs ->]|[Hs ->]]];
    destruct E as [(Eq & EUV & a & -> & -> & S)
                  |[(Eq & EUV & a & -> & -> & S)
                   |(N1 & N2 & EUVh & EUVp & ah & ap & -> & -> & S1 & S2)]];
    try discriminate; try congruence.
  - left. split; [assumption|]. now exists EUV, a.
  - right; left. split; [assumption|]. now exists EUV, a.
  - right; right. split; [assumption|]. now exists EUVh, EUVp, ah, ap.
Qed.

Lemma hardy_EUV_shapes lon lat kp time s starlight F107 dipole calibration r :
  snd (hardy_EUV H P PRODUCTION geo2mag mag2geo mlon2mlt sunlight_sza
         lon lat kp time s starlight F107 dipole calibration) = Ok r ->
  exists sh,
    broadcast_shape (Np.shape (array_ndmin1 lat)) (Np.shape (array_ndmin1 lon))
    = Ok sh /\
    Forall (fun a => Np.shape a = sh) (arrays r).
Proof.
  rewrite hardy_EUV_snd. intros E.
  apply bind_inv in E.
  destruct E as ([[[[sh mlat] mlt] sza] hop] & Ep & E).
  apply bind_inv in E. destruct E as (euv & Ee & E).
  apply prepare_inv in Ep. destruct Ep as (_ & _ & Hs & _).
  exists sh. split; [assumption|].
  apply combine_models_inv in E.
  destruct E as (hall & ped & _ &
                 [(_ & EUV & a & _ & -> & S & _)
                 |[(_ & EUV & a & _ & -> & S & _)
                  |(_ & _ & EUVh & EUVp & ah & ap & _ & -> & [S1 _]
                    & [S2 _])]]);
    simpl; repeat constructor; assumption.
Qed.

End Collaborators.

(** *** Shapes *)

Lemma shape_ndmin1_abs a :
  Np.shape (array_ndmin1 (np_abs a)) = Np.shape (array_ndmin1 a).
Proof. destruct a as [[|n s] d]; reflexivity. Qed.

Lemma hardy_shapes H P mlat mlt kp ch r :
  hardy H P mlat mlt kp ch = Ok r ->
  exists sh,
    broadcast_shape (Np.shape (array_ndmin1 mlat)) (Np.shape (array_ndmin1 mlt))
    = Ok sh /\
    Forall (fun a => Np.shape a = sh) (arrays r).
Proof.
  unfold hardy. rewrite shape_ndmin1_abs. intros E.
  apply bind_inv in E. destruct E as (? & _ & E).
  apply bind_inv in E. destruct E as (? & _ & E).
  apply bind_inv in E. destruct E as (sh & Es & E).
  apply bind_inv in E. destruct E as (hall & _ & E).
  apply bind_inv in E. destruct E as (ped & _ & E).
  exists sh. split; [assumption|].
  destruct (String.eqb (lower ch) "h");
    [|destruct (String.eqb (lower ch) "p")];
    repeat (apply bind_inv in E;
            let a := fresh "a" in let Ea := fresh "Ea" in
            destruct E as (a & Ea & E);
            try apply reshape_shape in Ea);
    injection E as <-; simpl; repeat constructor; assumption.
Qed.

Lemma EUV_shapes PRODUCTION sza F107 ch calibration r :
  snd (EUV_conductance PRODUCTION sza F107 ch calibration) = Ok r ->
  Forall (fun a => Np.shape a = Np.shape sza) (arrays r).
Proof.
  unfold EUV_conductance.
  destruct (assert _ _); [|discriminate].
  assert (body : forall getH getP c r',
             EUV_body PRODUCTION sza F107 getH getP c = Ok r' ->
             Forall (fun a => Np.shape a = Np.shape sza) (arrays r')).
  { clear. unfold EUV_body. intros getH getP c r' E.
    apply bind_inv in E. destruct E as (sigh & _ & E).
    apply bind_inv in E. destruct E as (sigp & _ & E).
    destruct getH, getP; simpl in E;
      repeat (apply bind_inv in E;
              let a := fresh "a" in let Ea := fresh "Ea" in
              destruct E as (a & Ea & E);
              try apply reshape_shape in Ea);
      injection E as <-; simpl; repeat constructor; assumption. }
  destruct (negb _); simpl snd; apply body.
Qed.

(** C9, as the code has it: every array that [hardy] returns has the
    broadcast shape of mlat and mlt, and every array that [hardy_EUV]
    returns the broadcast shape of lat and lon, where each input is first
    taken with ndmin = 1; every array that [EUV_conductance] returns has
    the shape of sza.  So scalar inputs give shape (1,) in [hardy] and
    [hardy_EUV] and the scalar shape () in [EUV_conductance]. *)
Theorem returned_shapes H P PRODUCTION geo2mag mag2geo mlon2mlt sunlight_sza :
  (forall mlat mlt kp ch r,
     hardy H P mlat mlt kp ch = Ok r ->
     exists sh,
       broadcast_shape (Np.shape (array_ndmin1 mlat))
                       (Np.shape (array_ndmin1 mlt)) = Ok sh /\
       Forall (fun a => Np.shape a = sh) (arrays r)) /\
  (forall sza F107 ch calibration r,
     snd (EUV_conductance PRODUCTION sza F107 ch calibration) = Ok r ->
     Forall (fun a => Np.shape a = Np.shape sza) (arrays r)) /\
  (forall lon lat kp time s starlight F107 dipole calibration r,
     snd (hardy_EUV H P PRODUCTION geo2mag mag2geo mlon2mlt sunlight_sza
            lon lat kp time s starlight F107 dipole calibration) = Ok r ->
     exists sh,
       broadcast_shape (Np.shape (array_ndmin1 lat))
                       (Np.shape (array_ndmin1 lon)) = Ok sh /\
       Forall (fun a => Np.shape a = sh) (arrays r)) /\
  (forall x y,
     Np.shape (scalar_array x) = [] /\
     broadcast_shape (Np.shape (array_ndmin1 (scalar_array x)))
                     (Np.shape (array_ndmin1 (scalar_array y)))
     = Ok [1%nat]).
Proof.
  split; [intros *; apply hardy_shapes|].
  split; [intros *; apply EUV_shapes|].
  split; [intros *; apply hardy_EUV_shapes|].
  intros x y. split; reflexivity.
Qed.

(** Collaborators that return their inputs, and a time. *)
Definition demo_geo2mag (epoch : Z) (lat lon : list R)
  : result (list R * list R) := Ok (lat, lon).

Definition demo_mlon2mlt (epoch : Z) (mlon : list R) (t : datetime)
  : result (list R) := Ok mlon.

Definition demo_sza (lat lon : list R) (t : datetime) : result (list R) :=
  Ok lat.

Definition demo_time : datetime := mk_datetime 2015 3 17 12 0 0.

Lemma returned_shapes_witness :
  exists sh,
    broadcast_shape (Np.shape (array_ndmin1 (scalar_array 60)))
                    (Np.shape (array_ndmin1 (scalar_array 0))) = Ok sh /\
    Forall (fun a => Np.shape a = sh)
           (arrays (Two (mk_ndarray [1%nat] [0.3]) (mk_ndarray [1%nat] [0.3]))).
Proof.
  apply (proj1 (returned_shapes demo_table demo_table demo_production
                  demo_geo2mag demo_geo2mag demo_mlon2mlt demo_sza)
           (scalar_array 60) (scalar_array 0) (PyInt 0) "hp"%string).
  exact demo_hardy.
Defined.

(** C9 as stated fails for scalar inputs of [hardy]: the broadcast shape
    of two scalars is (), the returned arrays have shape (1,). *)
Lemma scalar_shape_counterexample :
  broadcast_shape (Np.shape (scalar_array 60)) (Np.shape (scalar_array 0))
  = Ok [] /\
  hardy demo_table demo_table (scalar_array 60) (scalar_array 0) (PyInt 0) "hp"
  = Ok (Two (mk_ndarray [1%nat] [0.3]) (mk_ndarray [1%nat] [0.3])) /\
  Np.shape (mk_ndarray [1%nat] [0.3]) <> [].
Proof.
  split; [reflexivity|]. split; [exact demo_hardy | discriminate].
Qed.

(** A sample call of [hardy_EUV] at latitude 60, longitude 0. *)
Lemma demo_hardy_flat :
  hardy demo_table demo_table (flat [60]) (flat [0]) (PyInt 0) "hp"
  = Ok (Two (mk_ndarray [1%nat] [0.3]) (mk_ndarray [1%nat] [0.3])).
Proof.
  assert (E : hardy_one demo_table (flat [60]) (flat [0]) (PyInt 0)
              = Ok (mk_ndarray [1%nat] [0.3])).
  { unfold hardy_one. simpl data. simpl map.
    rewrite (hardy_channel_ok demo_table [Rabs 60] [0] (PyInt 0) _ []
               [(Rabs 60, 0)] demo_derived eq_refl).
    simpl map. rewrite demo_conductance. reflexivity. }
  apply hardy_hp_iff. repeat split; try reflexivity; exact E.
Qed.

Lemma demo_hardy_EUV_returns :
  exists r,
    snd (hardy_EUV demo_table demo_table demo_production
           demo_geo2mag demo_geo2mag demo_mlon2mlt demo_sza
           (scalar_array 0) (scalar_array 60) (PyInt 0) demo_time
           "hall" 0.5 100 false "MoenBrekke1993") = Ok r.
Proof.
  rewrite hardy_EUV_snd.
  change (prepare demo_geo2mag demo_geo2mag demo_mlon2mlt demo_sza
            (scalar_array 0) (scalar_array 60) demo_time "hall" false)
    with (Ok ([1%nat], [60], [0], [60], "h"%string)).
  cbn [bind].
  rewrite (EUV_returns demo_production (flat [60]) 100 "h" "MoenBrekke1993"
             eq_refl demo_production_length eq_refl).
  cbn [bind]. unfold combine_models. rewrite demo_hardy_flat. cbn [bind].
  eexists. reflexivity.
Qed.

(** C4 as stated fails for scalar lat and lon: their broadcast shape is
    (), the array that [hardy_EUV] returns has shape (1,). *)
Lemma hardy_EUV_scalar_counterexample :
  broadcast_shape (Np.shape (scalar_array 60)) (Np.shape (scalar_array 0))
  = Ok [] /\
  exists a,
    snd (hardy_EUV demo_table demo_table demo_production
           demo_geo2mag demo_geo2mag demo_mlon2mlt demo_sza
           (scalar_array 0) (scalar_array 60) (PyInt 0) demo_time
           "hall" 0.5 100 false "MoenBrekke1993") = Ok (One a) /\
    Np.shape a = [1%nat] /\
    Np.shape a <> [].
Proof.
  split; [reflexivity|].
  rewrite hardy_EUV_snd.
  change (prepare demo_geo2mag demo_geo2mag demo_mlon2mlt demo_sza
            (scalar_array 0) (scalar_array 60) demo_time "hall" false)
    with (Ok ([1%nat], [60], [0], [60], "h"%string)).
  cbn [bind].
  rewrite (EUV_returns demo_production (flat [60]) 100 "h" "MoenBrekke1993"
             eq_refl demo_production_length eq_refl).
  cbn [bind]. unfold combine_models. rewrite demo_hardy_flat. cbn [bind].
  eexists. split; [reflexivity|]. split; [reflexivity | discriminate].
Qed.

Lemma hardy_EUV_sum_witness :
  exists r,
    snd (hardy_EUV demo_table demo_table demo_production
           demo_geo2mag demo_geo2mag demo_mlon2mlt demo_sza
           (scalar_array 0) (scalar_array 60) (PyInt 0) demo_time
           "hall" 0.5 100 false "MoenBrekke1993") = Ok r /\
    str_in (lower "hall") hop_tokens = true /\
    exists sh mlat mlt sza hall ped,
      derived demo_geo2mag demo_geo2mag demo_mlon2mlt demo_sza
              (scalar_array 0) (scalar_array 60) demo_time false
              sh mlat mlt sza /\
      hardy demo_table demo_table (flat mlat) (flat mlt) (PyInt 0) "hp"
      = Ok (Two hall ped) /\
      ((In (lower "hall") ["hall"; "h"]%string /\ exists EUV a,
          snd (EUV_conductance demo_production (flat sza) 100 "h"
                 "MoenBrekke1993") = Ok (One EUV) /\
          r = One a /\ summed hall EUV 0.5 sh a) \/
       (In (lower "hall") ["pedersen"; "p"]%string /\ exists EUV a,
          snd (EUV_conductance demo_production (flat sza) 100 "p"
                 "MoenBrekke1993") = Ok (One EUV) /\
          r = One a /\ summed ped EUV 0.5 sh a) \/
       (In (lower "hall") ["hp"; "hallandpedersen"]%string /\
        exists EUVh EUVp ah ap,
          snd (EUV_conductance demo_production (flat sza) 100 "hp"
                 "MoenBrekke1993") = Ok (Two EUVh EUVp) /\
          r = Two ah ap /\
          summed hall EUVh 0.5 sh ah /\
          summed ped EUVp 0.5 sh ap)).
Proof.
  destruct demo_hardy_EUV_returns as [r Hr].
  exists r. split; [exact Hr|].
  exact (hardy_EUV_sum demo_table demo_table demo_production
           demo_geo2mag demo_geo2mag demo_mlon2mlt demo_sza
           (scalar_array 0) (scalar_array 60) (PyInt 0) demo_time
           "hall" 0.5 100 false "MoenBrekke1993" r Hr).
Defined.

End CombinedProperties.

(** ** Further properties of [hardy] *)

Module HardyInvariants.

Import Hardy BroadcastFacts HardyFacts Demo HardyProperties.

(** [-a] *)
Definition np_negative (a : ndarray) : ndarray :=
  mk_ndarray (Np.shape a) (map Ropp (data a)).

(** [a + c] for a number [c] *)
Definition np_shift (a : ndarray) (c : R) : ndarray :=
  mk_ndarray (Np.shape a) (map (fun t => t + c) (data a)).

Lemma np_abs_negative a : np_abs (np_negative a) = np_abs a.
Proof.
  unfold np_abs, np_negative. simpl. f_equal. rewrite map_map.
  apply map_ext. intros x. apply Rabs_Ropp.
Qed.

(** X1: the hemisphere is irrelevant: [hardy] at -mlat is [hardy] at
    mlat, result or exception alike. *)
Theorem hardy_sign_symmetry H P mlat mlt kp ch :
  hardy H P (np_negative mlat) mlt kp ch = hardy H P mlat mlt kp ch.
Proof. unfold hardy. now rewrite np_abs_negative. Qed.

(** *** Periodicity in magnetic local time *)

Lemma last_char_raise t e : last_char t = Raise e -> t = EmptyString.
Proof.
  induction t as [|c t IH]; [reflexivity|].
  simpl. destruct t as [|c' t']; [discriminate|].
  intros E. apply IH in E. discriminate.
Qed.

Lemma term_n_nonneg t n : term_n t = Ok n -> (0 <= n)%Z.
Proof.
  unfold term_n. intros E. apply bind_inv in E. destruct E as (c & _ & E).
  destruct (Ascii.eqb c "t").
  - injection E as <-. lia.
  - unfold int_of_char in E.
    destruct (_ && _); [|discriminate]. injection E as <-. lia.
Qed.

Lemma harmonic_periodic row t :
  row_parsed row -> harmonic row (t + 24) = harmonic row t.
Proof.
  intros (s & _ & Hn & Ht). unfold harmonic. rewrite Ht.
  apply term_n_nonneg in Hn.
  set (n := fst (snd row)) in *.
  replace (IZR n * (t + 24) / 12 * PI)
    with (IZR n * t / 12 * PI + 2 * INR (Z.to_nat n) * PI).
  - unfold term_trig.
    destruct (String.eqb _ _); [apply sin_period | apply cos_period].
  - rewrite INR_IZR_INZ, Z2Nat.id by assumption. field.
Qed.

Lemma fourier_sum_periodic coef rows t :
  Forall row_parsed rows ->
  fourier_sum coef rows (t + 24) = fourier_sum coef rows t.
Proof.
  induction 1 as [|row rows Hrow _ IH]; [reflexivity|].
  simpl. now rewrite harmonic_periodic, IH.
Qed.

Lemma conductance_at_periodic rows a t :
  Forall row_parsed rows ->
  conductance_at rows (a, t + 24) = conductance_at rows (a, t).
Proof.
  intros Hr. unfold conductance_at, maxlatitude_at, prefloor_at.
  simpl fst. simpl snd. now rewrite !fourier_sum_periodic.
Qed.

(** The samples when a function is applied to the second array. *)
Lemma samples_map_r (f : R -> R) mlat mlt :
  samples mlat (map f mlt)
  = match samples mlat mlt with
    | Ok u => Ok (np_un (fun p => (fst p, f (snd p))) u)
    | Raise e => Raise e
    end.
Proof.
  unfold samples, np_bin.
  destruct mlat as [|x [|x' a]]; destruct mlt as [|y [|y' b]];
    try reflexivity;
    try (cbn [map np_un]; rewrite !map_map; reflexivity).
  cbn [map]. cbn [List.length]. rewrite !length_map.
  destruct (_ =? _)%nat; [|reflexivity].
  cbn [np_un combine map fst snd]. do 4 f_equal.
  rewrite map_map. cbn [fst snd].
  generalize b. induction a as [|z a IH]; intros [|w b']; simpl;
    try reflexivity.
  now rewrite IH.
Qed.

Lemma hardy_channel_periodic table mlat mlt kp :
  hardy_channel table mlat (map (fun t => t + 24) mlt) kp
  = hardy_channel table mlat mlt kp.
Proof.
  destruct (derived_columns (select_kp table kp)) as [[|row rows]|e] eqn:Hd.
  - now rewrite !(hardy_channel_norows _ _ _ _ Hd).
  - pose proof (proj2 (derived_columns_spec _ _ Hd)) as Hp.
    pose proof (samples_map_r (fun t => t + 24) mlat mlt) as Hs.
    destruct (samples_cases mlat mlt) as [[xs Hx]|Hx]; rewrite Hx in Hs.
    + rewrite (hardy_channel_ok _ _ _ _ _ _ _ Hd Hx).
      rewrite (hardy_channel_ok _ _ _ _ _ _ _ Hd Hs).
      f_equal. rewrite map_map. apply map_ext. intros [a t].
      now apply conductance_at_periodic.
    + rewrite (hardy_channel_mismatch _ _ _ _ _ _ _ Hd Hx).
      now rewrite (hardy_channel_mismatch _ _ _ _ _ _ _ Hd Hs).
  - unfold hardy_channel. now rewrite Hd.
Qed.

(** X2: the model has period 24 h in magnetic local time: [hardy] at
    mlt + 24 is [hardy] at mlt, result or exception alike. *)
Theorem hardy_mlt_periodic H P mlat mlt kp ch :
  hardy H P mlat (np_shift mlt 24) kp ch = hardy H P mlat mlt kp ch.
Proof.
  unfold hardy.
  assert (Es : Np.shape (array_ndmin1 (np_shift mlt 24))
               = Np.shape (array_ndmin1 mlt))
    by (destruct mlt as [[|n s] d]; reflexivity).
  assert (Ef : flatten (array_ndmin1 (np_shift mlt 24))
               = map (fun t => t + 24) (flatten (array_ndmin1 mlt)))
    by (destruct mlt as [[|n s] d]; reflexivity).
  rewrite Es, Ef, !hardy_channel_periodic. reflexivity.
Qed.

(** *** How a call can fail *)

Definition channel_msg : string :=
  "hardy: Must select one of 'h', 'p', or 'hp' for hallOrPed!".

Lemma last_or_zero_raise t e :
  last_or_zero t = Raise e ->
  (e = TypeError /\ t = CellNaN) \/
  (e = IndexError /\ t = CellStr EmptyString).
Proof.
  destruct t as [s|]; simpl.
  - destruct (last_char s) as [c|e'] eqn:El; cbn [bind]; [discriminate|].
    intros E. injection E as <-. right.
    pose proof (last_char_raise _ _ El) as ->. simpl in El.
    injection El as <-. now split.
  - intros E. injection E as <-. now left.
Qed.

Lemma to_int_raise x e : to_int x = Raise e -> e = ValueError.
Proof.
  destruct x as [z|c]; simpl; [discriminate|].
  unfold int_of_char. destruct (_ && _); [discriminate|].
  now intros E; injection E as <-.
Qed.

Lemma cell_trig_raise t e :
  cell_trig t = Raise e -> e = TypeError /\ t = CellNaN.
Proof.
  destruct t as [s|]; simpl; [discriminate|].
  intros E. injection E as <-. now split.
Qed.

Lemma map_result_raise {A B : Type} (f : A -> result B) l e :
  map_result f l = Raise e -> exists a, In a l /\ f a = Raise e.
Proof.
  induction l as [|a l IH]; [discriminate|].
  simpl. destruct (f a) as [b|e'] eqn:Ea; cbn [bind].
  - destruct (map_result f l) as [bs|e'']; cbn [bind]; [discriminate|].
    intros E. injection E as <-.
    destruct (IH eq_refl) as (a' & Hin & Ha'). exists a'. auto.
  - intros E. injection E as <-. exists a. auto.
Qed.

(** The failures of the two derived columns: a term that is nan, an
    empty term, or a term whose last character is neither t nor a
    digit. *)
Lemma derived_columns_raise hc e :
  derived_columns hc = Raise e ->
  e = ValueError \/
  (e = TypeError /\ exists row, In row hc /\ term row = CellNaN) \/
  (e = IndexError /\
   exists row, In row hc /\ term row = CellStr EmptyString).
Proof.
  unfold derived_columns.
  destruct (map_result last_or_zero (map term hc)) as [lasts|e1] eqn:E1;
    cbn [bind].
  - destruct (map_result to_int lasts) as [ns|e2] eqn:E2; cbn [bind].
    + destruct (map_result cell_trig (map term hc)) as [gs|e3] eqn:E3;
        cbn [bind]; [discriminate|].
      intros E. injection E as <-.
      apply map_result_raise in E3. destruct E3 as (t & Hin & Et).
      apply cell_trig_raise in Et. destruct Et as [-> ->].
      apply in_map_iff in Hin. destruct Hin as (row & Hr & Hin).
      right; left. eauto.
    + intros E. injection E as <-.
      apply map_result_raise in E2. destruct E2 as (x & _ & Ex).
      left. now apply to_int_raise in Ex.
  - intros E. injection E as <-.
    apply map_result_raise in E1. destruct E1 as (t & Hin & Et).
    apply in_map_iff in Hin. destruct Hin as (row & Hr & Hin).
    apply last_or_zero_raise in Et.
    destruct Et as [[-> ->] | [-> ->]]; [right; left | right; right]; eauto.
Qed.

(** The failures of the per-channel block: a term that cannot be read,
    no row for the level, or arrays that do not broadcast. *)
Lemma hardy_channel_raise table mlat mlt kp e :
  hardy_channel table mlat mlt kp = Raise e ->
  e = ValueError \/
  (e = ZeroDivisionError /\ select_kp table kp = []) \/
  (e = TypeError /\
   exists row, In row (select_kp table kp) /\ term row = CellNaN) \/
  (e = IndexError /\
   exists row, In row (select_kp table kp) /\
               term row = CellStr EmptyString).
Proof.
  intros E.
  destruct (derived_columns (select_kp table kp)) as [[|row rows]|e'] eqn:Hd.
  - rewrite (hardy_channel_norows _ _ _ _ Hd) in E. injection E as <-.
    right; left. split; [reflexivity|].
    now apply derived_columns_spec in Hd as [<- _].
  - destruct (samples_cases mlat mlt) as [[xs Hs]|Hs].
    + rewrite (hardy_channel_ok _ _ _ _ _ _ _ Hd Hs) in E. discriminate.
    + rewrite (hardy_channel_mismatch _ _ _ _ _ _ _ Hd Hs) in E.
      injection E as <-. now left.
  - unfold hardy_channel in E. rewrite Hd in E. injection E as <-.
    apply derived_columns_raise in Hd. tauto.
Qed.

Lemma reshape_raise xs s e : reshape xs s = Raise e -> e = ValueError.
Proof.
  unfold reshape. destruct (_ =? _)%nat; [discriminate|].
  now intros E; injection E as <-.
Qed.

Lemma broadcast_shape_raise s1 s2 e :
  broadcast_shape s1 s2 = Raise e -> e = ValueError.
Proof.
  unfold broadcast_shape. destruct (broadcast_rev _ _); [discriminate|].
  now intros E; injection E as <-.
Qed.

Lemma hardy_channel_ext H P mlat mlt kp ch ch' :
  lower ch = lower ch' -> hardy H P mlat mlt kp ch = hardy H P mlat mlt kp ch'.
Proof. intros E. unfold hardy. now rewrite E. Qed.

(** X3: the only ways [hardy] fails.  A channel other than h, p, hp
    (in any case) fails the first assertion, whatever the other
    arguments; otherwise a kp that equals none of 0..6 fails the second;
    otherwise the call raises ValueError (shapes or flattened arrays that
    do not fit, or a term without a final digit), ZeroDivisionError (only
    if a table it reads has no row for the level), TypeError (only if a
    selected row has no term, which [read_table] delivers as nan) or
    IndexError (only if the term of a selected row is the empty string,
    which [read_table] does not deliver).  No variable is read
    unbound. *)
Theorem hardy_failure_modes H P mlat mlt kp ch e :
  hardy H P mlat mlt kp ch = Raise e ->
  (str_in (lower ch) channels = false /\ e = AssertionError channel_msg) \/
  (str_in (lower ch) channels = true /\ in_ints kp kp_levels = false /\
   e = AssertionError kp_msg) \/
  (str_in (lower ch) channels = true /\ in_ints kp kp_levels = true /\
   (e = ValueError \/
    (e = ZeroDivisionError /\
     (select_kp H kp = [] \/ select_kp P kp = [])) \/
    (e = TypeError /\
     exists row, (In row (select_kp H kp) \/ In row (select_kp P kp)) /\
                 term row = CellNaN) \/
    (e = IndexError /\
     exists row, (In row (select_kp H kp) \/ In row (select_kp P kp)) /\
                 term row = CellStr EmptyString))).
Proof.
  intros E.
  destruct (str_in (lower ch) channels) eqn:Hc.
  2:{ left. split; [reflexivity|]. unfold hardy in E. rewrite Hc in E.
      now injection E as <-. }
  right.
  destruct (in_ints kp kp_levels) eqn:Hk.
  2:{ left. repeat split. unfold hardy in E. rewrite Hc, Hk in E.
      now injection E as <-. }
  right. repeat split.
  assert (Hch : forall table e',
             hardy_channel table (flatten (array_ndmin1 (np_abs mlat)))
                           (flatten (array_ndmin1 mlt)) kp = Raise e' ->
             (table = H \/ table = P) ->
             e' = ValueError \/
             (e' = ZeroDivisionError /\
              (select_kp H kp = [] \/ select_kp P kp = [])) \/
             (e' = TypeError /\
              exists row,
                (In row (select_kp H kp) \/ In row (select_kp P kp)) /\
                term row = CellNaN) \/
             (e' = IndexError /\
              exists row,
                (In row (select_kp H kp) \/ In row (select_kp P kp)) /\
                term row = CellStr EmptyString)).
  { intros table e' E' Ht. apply hardy_channel_raise in E'.
    destruct E' as [-> | [[-> Hs] | [[-> (row & Hin & Hr)]
                                    | [-> (row & Hin & Hr)]]]].
    - now left.
    - right; left. split; [reflexivity|]. destruct Ht as [-> | ->]; auto.
    - right; right; left. split; [reflexivity|]. exists row.
      destruct Ht as [-> | ->]; auto.
    - right; right; right. split; [reflexivity|]. exists row.
      destruct Ht as [-> | ->]; auto. }
  apply EUVProperties.valid_channel in Hc.
  assert (Hl : exists c, In c channels /\ lower ch = lower c).
  { destruct Hc as [Hc|[Hc|Hc]]; rewrite Hc;
      [exists "h"%string | exists "p"%string | exists "hp"%string];
      (split; [simpl; tauto | reflexivity]). }
  destruct Hl as (c & Hin & Hl).
  rewrite (hardy_channel_ext H P mlat mlt kp ch c Hl) in E.
  unfold hardy in E. rewrite Hk in E. unfold assert in E.
  destruct Hin as [<-|[<-|[<-|[]]]];
    change (str_in (lower "h") channels) with true in E;
    change (str_in (lower "p") channels) with true in E;
    change (str_in (lower "hp") channels) with true in E;
    cbn [bind] in E;
    destruct (broadcast_shape _ _) as [sh|e1] eqn:Es; cbn [bind] in E;
    try (injection E as <-; left; now apply broadcast_shape_raise in Es);
    simpl in E.
  - destruct (hardy_channel H _ _ kp) as [c|e1] eqn:E1; cbn [bind] in E.
    + simpl in E. destruct (reshape c sh) as [a|e2] eqn:E2; [discriminate|].
      injection E as <-. left. now apply reshape_raise in E2.
    + injection E as <-. apply (Hch H); auto.
  - destruct (hardy_channel P _ _ kp) as [c|e1] eqn:E1; cbn [bind] in E.
    + simpl in E. destruct (reshape c sh) as [a|e2] eqn:E2; [discriminate|].
      injection E as <-. left. now apply reshape_raise in E2.
    + injection E as <-. apply (Hch P); auto.
  - destruct (hardy_channel H _ _ kp) as [c|e1] eqn:E1; cbn [bind] in E.
    + destruct (hardy_channel P _ _ kp) as [c'|e1] eqn:E1'; cbn [bind] in E.
      * simpl in E.
        destruct (reshape c sh) as [a|e2] eqn:E2; cbn [bind] in E.
        -- destruct (reshape c' sh) as [a'|e3] eqn:E3; [discriminate|].
           injection E as <-. left. now apply reshape_raise in E3.
        -- injection E as <-. left. now apply reshape_raise in E2.
      * injection E as <-. apply (Hch P); auto.
    + injection E as <-. apply (Hch H); auto.
Qed.

(** A table whose only row for K0 has no term. *)
Definition demo_nan_table : list coef_row :=
  [mk_row "K0" CellNaN 0.3 60 1 (-1)].

Lemma demo_nan_hardy :
  hardy demo_nan_table demo_nan_table (scalar_array 60) (scalar_array 0)
        (PyInt 0) "hp" = Raise TypeError.
Proof. reflexivity. Qed.

Lemma hardy_failure_modes_witness :
  (str_in (lower "hp") channels = false /\
   TypeError = AssertionError channel_msg) \/
  (str_in (lower "hp") channels = true /\
   in_ints (PyInt 0) kp_levels = false /\
   TypeError = AssertionError kp_msg) \/
  (str_in (lower "hp") channels = true /\
   in_ints (PyInt 0) kp_levels = true /\
   (TypeError = ValueError \/
    (TypeError = ZeroDivisionError /\
     (select_kp demo_nan_table (PyInt 0) = [] \/
      select_kp demo_nan_table (PyInt 0) = [])) \/
    (TypeError = TypeError /\
     exists row,
       (In row (select_kp demo_nan_table (PyInt 0)) \/
        In row (select_kp demo_nan_table (PyInt 0))) /\
       term row = CellNaN) \/
    (TypeError = IndexError /\
     exists row,
       (In row (select_kp demo_nan_table (PyInt 0)) \/
        In row (select_kp demo_nan_table (PyInt 0))) /\
       term row = CellStr EmptyString))).
Proof.
  exact (hardy_failure_modes demo_nan_table demo_nan_table (scalar_array 60)
           (scalar_array 0) (PyInt 0) "hp" _ demo_nan_hardy).
Defined.

(** X4: a level without rows in the table is not an empty or zero
    result but an exception: when the assertions pass and the shapes
    broadcast, the calls for h and for hp raise ZeroDivisionError if the
    Hall table has no row labelled 'K' + str(kp), and the call for p
    raises it if the Pedersen table has none. *)
Theorem hardy_missing_level H P mlat mlt kp sh ch :
  in_ints kp kp_levels = true ->
  hardy_shape mlat mlt = Ok sh ->
  In ch channels ->
  select_kp (if String.eqb ch "p" then P else H) kp = [] ->
  hardy H P mlat mlt kp ch = Raise ZeroDivisionError.
Proof.
  intros Hk Hs Hch Hsel.
  assert (Hno : forall table,
             select_kp table kp = [] ->
             hardy_channel table (flatten (array_ndmin1 (np_abs mlat)))
                           (flatten (array_ndmin1 mlt)) kp
             = Raise ZeroDivisionError).
  { intros table Hsel'. apply hardy_channel_norows. now rewrite Hsel'. }
  unfold hardy_shape in Hs.
  destruct Hch as [<-|[<-|[<-|[]]]]; simpl in Hsel; unfold hardy;
    change (str_in (lower "h") channels) with true;
    change (str_in (lower "p") channels) with true;
    change (str_in (lower "hp") channels) with true;
    rewrite Hk; unfold assert; cbn [bind]; rewrite Hs; cbn [bind];
    simpl contains; cbv iota; rewrite (Hno _ Hsel); reflexivity.
Qed.

Lemma hardy_missing_level_witness :
  hardy demo_table demo_table (scalar_array 60) (scalar_array 0)
        (PyInt 3) "hp" = Raise ZeroDivisionError.
Proof.
  apply (hardy_missing_level demo_table demo_table (scalar_array 60)
           (scalar_array 0) (PyInt 3) [1%nat] "hp").
  - reflexivity.
  - reflexivity.
  - simpl. tauto.
  - reflexivity.
Defined.

End HardyInvariants.

(** ** Further properties of [EUV_conductance] *)

Module EUVInvariants.

Import EUV InterpFacts EUVFacts HardyFacts EUVProperties HardyInvariants.

Definition euv_msg : string :=
  "EUV_conductance: Must select one of 'h', 'p', or 'hp' for hallOrPed!".

Section Production.

Variable PRODUCTION : list R.

Lemma EUV_body_raise sza F107 getH getP c e :
  In c calibrations ->
  EUV_body PRODUCTION sza F107 getH getP c = Raise e -> e = ValueError.
Proof.
  intros Hc. unfold EUV_body. cbv zeta.
  rewrite (hall_scaled_formula PRODUCTION F107 c Hc).
  rewrite (ped_scaled_formula PRODUCTION F107 c Hc).
  unfold interpolate, interp1d. cbn [bind]. rewrite !length_map.
  destruct (_ =? _)%nat; destruct getH, getP; simpl;
    repeat match goal with
           | |- context [reshape ?xs ?s] =>
               let E := fresh "E" in
               destruct (reshape xs s) eqn:E; simpl;
               try apply reshape_raise in E
           end;
    intros E'; try discriminate; injection E' as <-;
    try assumption; reflexivity.
Qed.

Lemma EUV_snd_valid sza F107 ch c :
  str_in (lower ch) Hardy.channels = true ->
  snd (EUV_conductance PRODUCTION sza F107 ch c)
  = EUV_body PRODUCTION sza F107 (contains "h" (lower ch))
             (contains "p" (lower ch)) (effective c).
Proof.
  intros Hc. unfold EUV_conductance, effective. rewrite Hc. unfold assert.
  cbv iota. now destruct (str_in c calibrations).
Qed.

(** X5: the only ways [EUV_conductance] fails on a well-formed sza: a
    channel other than h, p, hp (in any case) fails the assertion, and
    then nothing is printed, even for an unlisted calibration; otherwise
    it fails only when the production table does not have 1201 values,
    with the ValueError of [interp1d].  No variable is read unbound,
    although the scale constants are unbound for MoenBrekke1993. *)
Theorem EUV_failure_modes sza F107 ch c e :
  wf_ndarray sza ->
  snd (EUV_conductance PRODUCTION sza F107 ch c) = Raise e ->
  (str_in (lower ch) Hardy.channels = false /\
   EUV_conductance PRODUCTION sza F107 ch c
   = ([], Raise (AssertionError euv_msg))) \/
  (str_in (lower ch) Hardy.channels = true /\
   List.length PRODUCTION <> 1201%nat /\ e = ValueError).
Proof.
  intros Hw E.
  destruct (str_in (lower ch) Hardy.channels) eqn:Hc.
  - right. split; [reflexivity|]. split.
    + intros Hp. rewrite (EUV_returns PRODUCTION sza F107 ch c Hc Hp Hw) in E.
      discriminate.
    + rewrite (EUV_snd_valid sza F107 ch c Hc) in E.
      apply EUV_body_raise in E; [assumption | apply effective_in].
  - left. split; [reflexivity|].
    unfold EUV_conductance. rewrite Hc. reflexivity.
Qed.

(** X6: a production table that does not have the 1201 values of the
    grid is refused: on a valid channel the call raises ValueError. *)
Theorem EUV_table_length sza F107 ch c :
  str_in (lower ch) Hardy.channels = true ->
  List.length PRODUCTION <> 1201%nat ->
  snd (EUV_conductance PRODUCTION sza F107 ch c) = Raise ValueError.
Proof.
  intros Hc Hp. rewrite (EUV_snd_valid sza F107 ch c Hc).
  apply valid_channel in Hc.
  unfold EUV_body. cbv zeta.
  rewrite (hall_scaled_formula PRODUCTION F107 _ (effective_in c)).
  rewrite (ped_scaled_formula PRODUCTION F107 _ (effective_in c)).
  unfold interpolate, interp1d. cbn [bind].
  rewrite !length_map, MODELSZAS_length.
  destruct (Nat.eqb_spec 1201 (List.length PRODUCTION)) as [E|_];
    [now elim Hp|].
  destruct Hc as [-> | [-> | ->]]; reflexivity.
Qed.

End Production.

Lemma EUV_failure_modes_witness :
  (str_in (lower "x") Hardy.channels = false /\
   EUV_conductance demo_production (scalar_array 95) 100 "x" "bogus"
   = ([], Raise (AssertionError euv_msg))) \/
  (str_in (lower "x") Hardy.channels = true /\
   List.length demo_production <> 1201%nat /\
   AssertionError euv_msg = ValueError).
Proof.
  apply (EUV_failure_modes demo_production (scalar_array 95) 100 "x" "bogus").
  - reflexivity.
  - reflexivity.
Defined.

Lemma EUV_table_length_witness :
  snd (EUV_conductance [1; 2; 3] (scalar_array 95) 100 "hp" "MoenBrekke1993")
  = Raise ValueError.
Proof.
  apply (EUV_table_length [1; 2; 3] (scalar_array 95) 100 "hp"
           "MoenBrekke1993").
  - reflexivity.
  - simpl. lia.
Defined.

(** *** Inside the grid *)

Lemma searchsorted_head_ge a x v : v <= a -> searchsorted (a :: x) v = 0%nat.
Proof. intros H. simpl. destruct (Rlt_dec a v); [lra | reflexivity]. Qed.

(** Strictly between two nodes the search returns the upper one. *)
Lemma searchsorted_between (g : nat -> R) n : forall s k v,
  (forall i j, (i < j)%nat -> g i < g j) ->
  (s <= k)%nat -> (S k < s + n)%nat ->
  g k < v <= g (S k) ->
  searchsorted (map g (seq s n)) v = (S k - s)%nat.
Proof.
  induction n as [|n IH]; intros s k v Hg Hs Hk Hv; [lia|].
  cbn [seq map searchsorted].
  destruct (Rlt_dec (g s) v) as [L|L].
  - destruct (Nat.eq_dec s k) as [->|N].
    + destruct n as [|n]; [lia|].
      cbn [seq map]. rewrite searchsorted_head_ge by lra. lia.
    + rewrite (IH (S s) k v Hg) by (auto; lia). lia.
  - exfalso. apply L.
    destruct (Nat.eq_dec s k) as [->|N]; [lra|].
    assert (g s < g k) by (apply Hg; lia). lra.
Qed.

(** On the segment between two neighbouring nodes the interpolant is the
    line through them. *)
Lemma call_linear_segment (y : list R) k v :
  (k < 1200)%nat ->
  INR k * 0.1 <= v <= INR (S k) * 0.1 ->
  call_linear MODELSZAS y v
  = nth k y 0 + (nth (S k) y 0 - nth k y 0) / 0.1 * (v - INR k * 0.1).
Proof.
  intros Hk [Hl Hu].
  destruct (Req_dec_T v (INR k * 0.1)) as [->|Hne].
  - rewrite <- (MODELSZAS_nth k) by lia.
    rewrite call_linear_node by lia. lra.
  - unfold call_linear. rewrite MODELSZAS_length.
    assert (Hs : searchsorted MODELSZAS v = S k).
    { unfold MODELSZAS, np_arange.
      rewrite (searchsorted_between (fun i => 0 + INR i * 0.1) 1201 0 k v);
        [lia| |lia|lia|lra].
      intros i j Hij. apply lt_INR in Hij. lra. }
    rewrite Hs. unfold clip.
    replace (Nat.min (Nat.max (S k) 1) (1201 - 1)) with (S k) by lia.
    replace (S k - 1)%nat with k by lia.
    rewrite !MODELSZAS_nth by lia. rewrite S_INR. field. lra.
Qed.

(** One element of one returned array when nothing is clamped. *)
Lemma clamped_segment (y : list R) sza i k v :
  Forall (fun x => 0 <= x) y ->
  nth_error (data sza) i = Some v ->
  (k < 1200)%nat ->
  INR k * 0.1 <= v <= INR (S k) * 0.1 ->
  nth_error (data (clamped y sza)) i
  = Some (nth k y 0 + (nth (S k) y 0 - nth k y 0) / 0.1 * (v - INR k * 0.1)).
Proof.
  intros Hy Hi Hk Hv. unfold clamped, clamp0. simpl data.
  rewrite !nth_error_map, Hi. simpl. f_equal.
  rewrite (call_linear_segment y k v Hk Hv).
  pose proof (nth_nonneg y k Hy) as H0.
  pose proof (nth_nonneg y (S k) Hy) as H1.
  assert (Hs : INR (S k) * 0.1 = INR k * 0.1 + 0.1) by (rewrite S_INR; lra).
  assert (0 <= nth k y 0
               + (nth (S k) y 0 - nth k y 0) / 0.1 * (v - INR k * 0.1)).
  { replace (nth k y 0 + (nth (S k) y 0 - nth k y 0) / 0.1 * (v - INR k * 0.1))
      with ((1 - (v - INR k * 0.1) * 10) * nth k y 0
            + (v - INR k * 0.1) * 10 * nth (S k) y 0) by lra.
    assert (0 <= (v - INR k * 0.1) * 10 <= 1) by lra. nra. }
  unfold Rltb. destruct (Rlt_dec _ 0); [lra | reflexivity].
Qed.

(** X7: inside the grid nothing is clamped when F107 and the production
    values are not negative: for an sza between two neighbouring nodes
    k/10 and
    (k+1)/10 of the grid, each returned value is the linear interpolation
    between the scaled table values of these two nodes. *)
Theorem EUV_within_grid PRODUCTION sza F107 c i k v :
  0 <= F107 ->
  List.length PRODUCTION = 1201%nat ->
  wf_ndarray sza ->
  Forall (fun P => 0 <= P) PRODUCTION ->
  nth_error (data sza) i = Some v ->
  (k < 1200)%nat ->
  INR k * 0.1 <= v <= INR (S k) * 0.1 ->
  exists ah ap,
    snd (EUV_conductance PRODUCTION sza F107 "hp" c) = Ok (Two ah ap) /\
    nth_error (data ah) i
    = Some (hall_formula (effective c) F107 (nth k PRODUCTION 0)
            + (hall_formula (effective c) F107 (nth (S k) PRODUCTION 0)
               - hall_formula (effective c) F107 (nth k PRODUCTION 0)) / 0.1
              * (v - INR k * 0.1)) /\
    nth_error (data ap) i
    = Some (ped_formula (effective c) F107 (nth k PRODUCTION 0)
            + (ped_formula (effective c) F107 (nth (S k) PRODUCTION 0)
               - ped_formula (effective c) F107 (nth k PRODUCTION 0)) / 0.1
              * (v - INR k * 0.1)).
Proof.
  intros _ Hp Hw Hpos Hi Hk Hv.
  pose proof (EUV_returns PRODUCTION sza F107 "hp" c eq_refl Hp Hw) as E.
  cbv zeta in E. simpl String.eqb in E. cbv iota in E.
  eexists. eexists. split; [exact E|].
  split.
  - rewrite (clamped_segment _ sza i k v); try assumption.
    + rewrite !nth_map_default by lia. reflexivity.
    + apply Forall_forall. intros x Hx. apply in_map_iff in Hx.
      destruct Hx as (P & <- & HP). apply hall_formula_nonneg.
      rewrite Forall_forall in Hpos. now apply Hpos.
  - rewrite (clamped_segment _ sza i k v); try assumption.
    + rewrite !nth_map_default by lia. reflexivity.
    + apply Forall_forall. intros x Hx. apply in_map_iff in Hx.
      destruct Hx as (P & <- & HP). apply ped_formula_nonneg.
      rewrite Forall_forall in Hpos. now apply Hpos.
Qed.

Lemma EUV_within_grid_witness :
  exists ah ap,
    snd (EUV_conductance demo_production (scalar_array 60.05) 100 "hp"
           "MoenBrekke1993") = Ok (Two ah ap) /\
    nth_error (data ah) 0
    = Some (hall_formula (effective "MoenBrekke1993") 100
              (nth 600 demo_production 0)
            + (hall_formula (effective "MoenBrekke1993") 100
                 (nth 601 demo_production 0)
               - hall_formula (effective "MoenBrekke1993") 100
                   (nth 600 demo_production 0)) / 0.1
              * (60.05 - INR 600 * 0.1)) /\
    nth_error (data ap) 0
    = Some (ped_formula (effective "MoenBrekke1993") 100
              (nth 600 demo_production 0)
            + (ped_formula (effective "MoenBrekke1993") 100
                 (nth 601 demo_production 0)
               - ped_formula (effective "MoenBrekke1993") 100
                   (nth 600 demo_production 0)) / 0.1
              * (60.05 - INR 600 * 0.1)).
Proof.
  apply (EUV_within_grid demo_production (scalar_array 60.05) 100
           "MoenBrekke1993" 0 600 60.05).
  - lra.
  - exact demo_production_length.
  - reflexivity.
  - apply Forall_forall. intros x Hx. apply repeat_spec in Hx. lra.
  - reflexivity.
  - lia.
  - rewrite !INR_IZR_INZ. simpl Z.of_nat. lra.
Defined.

(** *** Scaling with F10.7 *)

(** The exponents of F107 per calibration. *)
Definition hall_f107_exponent (c : string) : R :=
  if String.eqb c "Cousinsetal2015" then 0.5 else 0.53.

Definition ped_f107_exponent (c : string) : R :=
  if String.eqb c "Cousinsetal2015" then 0.667 else 0.49.

Lemma fpow_1 y : fpow 1 y = 1.
Proof.
  unfold fpow, Rpower. destruct (Rlt_dec 0 1); [|lra].
  now rewrite ln_1, Rmult_0_r, exp_0.
Qed.

Lemma hall_formula_scale c F107 P :
  In c calibrations ->
  hall_formula c F107 P
  = fpow F107 (hall_f107_exponent c) * hall_formula c 1 P.
Proof.
  intros H. apply in_calibrations in H.
  destruct H as [-> | [-> | ->]];
    unfold hall_formula, hall_f107_exponent; simpl;
    rewrite !fpow_1; ring.
Qed.

Lemma ped_formula_scale c F107 P :
  In c calibrations ->
  ped_formula c F107 P
  = fpow F107 (ped_f107_exponent c) * ped_formula c 1 P.
Proof.
  intros H. apply in_calibrations in H.
  destruct H as [-> | [-> | ->]];
    unfold ped_formula, ped_f107_exponent; simpl;
    rewrite !fpow_1; ring.
Qed.

Lemma nth_scale (a : R) (y : list R) k :
  nth k (map (Rmult a) y) 0 = a * nth k y 0.
Proof.
  replace 0 with (a * 0) at 1 by ring. apply (map_nth (Rmult a)).
Qed.

(** The interpolant is linear in the tabulated values. *)
Lemma call_linear_scale x (a : R) (y : list R) v :
  call_linear x (map (Rmult a) y) v = a * call_linear x y v.
Proof. unfold call_linear. rewrite !nth_scale. unfold Rdiv. ring. Qed.

Lemma clamped_scale (a : R) (y : list R) sza :
  0 <= a ->
  data (clamped (map (Rmult a) y) sza)
  = map (Rmult a) (data (clamped y sza)).
Proof.
  intros Ha. unfold clamped, clamp0. simpl data. rewrite !map_map.
  apply map_ext. intros v. rewrite call_linear_scale. unfold Rltb.
  destruct (Rlt_dec (a * call_linear MODELSZAS y v) 0) as [L|L];
    destruct (Rlt_dec (call_linear MODELSZAS y v) 0) as [L'|L'];
    try ring.
  - exfalso. nra.
  - assert (a = 0) as -> by nra. ring.
Qed.

(** X8: the EUV conductance scales with a power of F107: for F107 and
    production values that are not negative, the arrays returned for
    F107 are those returned for F107 = 1 multiplied by
    F107 ** 0.53 (Hall) and F107 ** 0.49 (Pedersen), or by F107 ** 0.5
    and F107 ** 0.667 for Cousinsetal2015; an unlisted calibration
    scales as MoenBrekke1993. *)
Theorem EUV_F107_scaling PRODUCTION sza F107 c :
  0 <= F107 ->
  Forall (fun P => 0 <= P) PRODUCTION ->
  List.length PRODUCTION = 1201%nat ->
  wf_ndarray sza ->
  exists ah ap ah1 ap1,
    snd (EUV_conductance PRODUCTION sza F107 "hp" c) = Ok (Two ah ap) /\
    snd (EUV_conductance PRODUCTION sza 1 "hp" c) = Ok (Two ah1 ap1) /\
    data ah
    = map (Rmult (fpow F107 (hall_f107_exponent (effective c)))) (data ah1) /\
    data ap
    = map (Rmult (fpow F107 (ped_f107_exponent (effective c)))) (data ap1).
Proof.
  intros _ _ Hp Hw.
  pose proof (EUV_returns PRODUCTION sza F107 "hp" c eq_refl Hp Hw) as E.
  pose proof (EUV_returns PRODUCTION sza 1 "hp" c eq_refl Hp Hw) as E1.
  cbv zeta in E, E1. simpl String.eqb in E, E1. cbv iota in E, E1.
  do 4 eexists. split; [exact E|]. split; [exact E1|].
  split.
  - rewrite <- clamped_scale by apply fpow_nonneg. rewrite map_map.
    do 2 f_equal. apply map_ext. intros P.
    apply hall_formula_scale, effective_in.
  - rewrite <- clamped_scale by apply fpow_nonneg. rewrite map_map.
    do 2 f_equal. apply map_ext. intros P.
    apply ped_formula_scale, effective_in.
Qed.

Lemma EUV_F107_scaling_witness :
  exists ah ap ah1 ap1,
    snd (EUV_conductance demo_production (scalar_array 95) 150 "hp"
           "Cousinsetal2015") = Ok (Two ah ap) /\
    snd (EUV_conductance demo_production (scalar_array 95) 1 "hp"
           "Cousinsetal2015") = Ok (Two ah1 ap1) /\
    data ah
    = map (Rmult (fpow 150 (hall_f107_exponent (effective "Cousinsetal2015"))))
          (data ah1) /\
    data ap
    = map (Rmult (fpow 150 (ped_f107_exponent (effective "Cousinsetal2015"))))
          (data ap1).
Proof.
  apply (EUV_F107_scaling demo_production (scalar_array 95) 150
           "Cousinsetal2015").
  - lra.
  - apply Forall_forall. intros x Hx. apply repeat_spec in Hx. lra.
  - exact demo_production_length.
  - reflexivity.
Defined.

End EUVInvariants.

(** ** Further properties of [hardy_EUV] *)

Module CombinerInvariants.

Import Hardy EUV Combiner BroadcastFacts HardyFacts EUVFacts Demo.
Import HardyProperties EUVProperties CombinedProperties HardyInvariants.

Definition hop_msg : string :=
  "hardy_EUV: hall_or_pedersen must be either hall or pedersen, or hallandpedersen".

(** [r + s] on every array of a result *)
Definition ret_shift (s : R) (r : ret) : ret :=
  match r with
  | One a => One (np_shift a s)
  | Two h p => Two (np_shift h s) (np_shift p s)
  | RetNone => RetNone
  end.

Definition map_ok {A B : Type} (f : A -> B) (m : result A) : result B :=
  match m with
  | Ok a => Ok (f a)
  | Raise e => Raise e
  end.

Lemma total_starlight hc EUV s sh :
  total hc EUV s sh = map_ok (fun a => np_shift a s) (total hc EUV 0 sh).
Proof.
  unfold total, np_add.
  destruct (np_bin Rplus (Arr (data hc)) (Arr (data EUV))) as [[x|l]|e];
    cbn [bind]; try reflexivity.
  simpl. unfold reshape. rewrite !length_map.
  destruct (_ =? _)%nat; [|reflexivity].
  simpl. unfold np_shift. simpl. do 2 f_equal. rewrite map_map.
  apply map_ext. intros x. lra.
Qed.

Section Collaborators.

Variable H P : list coef_row.
Variable PRODUCTION : list R.
Variable geo2mag : Z -> list R -> list R -> result (list R * list R).
Variable mag2geo : Z -> list R -> list R -> result (list R * list R).
Variable mlon2mlt : Z -> list R -> datetime -> result (list R).
Variable sunlight_sza : list R -> list R -> datetime -> result (list R).

Lemma combine_models_starlight euv sh mlat mlt kp hop s :
  combine_models H P euv sh mlat mlt kp hop s
  = map_ok (ret_shift s) (combine_models H P euv sh mlat mlt kp hop 0).
Proof.
  unfold combine_models.
  destruct (hardy H P (flat mlat) (flat mlt) kp "hp") as [[a|hall ped|]|e];
    cbn [bind]; try reflexivity.
  destruct (String.eqb hop "h"); [|destruct (String.eqb hop "p")];
    destruct euv as [EUV|EUVh EUVp|]; try reflexivity;
    rewrite ?(total_starlight hall _ s), ?(total_starlight ped _ s);
    repeat match goal with
           | |- context [total ?a ?b 0 ?c] => destruct (total a b 0 c)
           end; reflexivity.
Qed.

(** X9: starlight is a uniform offset: the call with starlight s
    returns what the call with starlight 0 returns with s added to every
    element, and it raises what that call raises. *)
Theorem hardy_EUV_starlight lon lat kp time tok s F107 dipole c :
  snd (hardy_EUV H P PRODUCTION geo2mag mag2geo mlon2mlt sunlight_sza
         lon lat kp time tok s F107 dipole c)
  = map_ok (ret_shift s)
      (snd (hardy_EUV H P PRODUCTION geo2mag mag2geo mlon2mlt sunlight_sza
              lon lat kp time tok 0 F107 dipole c)).
Proof.
  rewrite !hardy_EUV_snd.
  destruct (prepare _ _ _ _ _ _ _ _ _) as [[[[[sh mlat] mlt] sza] hop]|e];
    cbn [bind]; [|reflexivity].
  destruct (snd (EUV_conductance PRODUCTION (flat sza) F107 hop c))
    as [euv|e]; cbn [bind]; [|reflexivity].
  apply combine_models_starlight.
Qed.

(** X10: whatever channel is asked for, [hardy_EUV] evaluates both
    channels of [hardy]: it returns only if kp passes the assertion of
    [hardy] and both coefficient tables have a row for the level. *)
Theorem hardy_EUV_needs_both_tables lon lat kp time tok s F107 dipole c r :
  snd (hardy_EUV H P PRODUCTION geo2mag mag2geo mlon2mlt sunlight_sza
         lon lat kp time tok s F107 dipole c) = Ok r ->
  in_ints kp kp_levels = true /\
  select_kp H kp <> [] /\ select_kp P kp <> [].
Proof.
  rewrite hardy_EUV_snd. intros E.
  apply bind_inv in E.
  destruct E as ([[[[sh mlat] mlt] sza] hop] & _ & E).
  apply bind_inv in E. destruct E as (euv & _ & E).
  apply combine_models_inv in E. destruct E as (hall & ped & E & _).
  apply hardy_hp_iff in E. destruct E as (Hk & Eh & Ep).
  split; [assumption|].
  apply hardy_one_inv in Eh. destruct Eh as (? & rh & rsh & ? & _ & Hh & _).
  apply hardy_one_inv in Ep. destruct Ep as (? & rp & rsp & ? & _ & Hp & _).
  apply derived_columns_spec in Hh. destruct Hh as [Hh _].
  apply derived_columns_spec in Hp. destruct Hp as [Hp _].
  split; [rewrite <- Hh | rewrite <- Hp]; discriminate.
Qed.

(** X11: a token outside hall, h, pedersen, p, hp, hallandpedersen
    (in any case) fails the assertion before anything else happens:
    nothing is printed and the result does not depend on the
    collaborators, the tables or the other arguments. *)
Theorem hardy_EUV_invalid_token lon lat kp time tok s F107 dipole c :
  str_in (lower tok) hop_tokens = false ->
  hardy_EUV H P PRODUCTION geo2mag mag2geo mlon2mlt sunlight_sza
    lon lat kp time tok s F107 dipole c
  = ([], Raise (AssertionError hop_msg)).
Proof.
  intros Ht. unfold hardy_EUV, prepare. rewrite Ht. reflexivity.
Qed.

(** X12: a call that returns has printed the notice about the
    calibration exactly when the calibration is not one of the three
    listed names, and nothing else. *)
Theorem hardy_EUV_notice lon lat kp time tok s F107 dipole c r :
  snd (hardy_EUV H P PRODUCTION geo2mag mag2geo mlon2mlt sunlight_sza
         lon lat kp time tok s F107 dipole c) = Ok r ->
  fst (hardy_EUV H P PRODUCTION geo2mag mag2geo mlon2mlt sunlight_sza
         lon lat kp time tok s F107 dipole c)
  = if str_in c calibrations then []
    else [("Invalid calibration: " ++ c ++ ". Using MoenBrekke1993")%string].
Proof.
  unfold hardy_EUV.
  destruct (prepare _ _ _ _ _ _ _ _ _) as [[[[[sh mlat] mlt] sza] hop]|e];
    [|discriminate].
  unfold EUV_conductance.
  destruct (assert _ _); [|discriminate].
  destruct (str_in c calibrations); reflexivity.
Qed.

End Collaborators.

Lemma hardy_EUV_needs_both_tables_witness :
  in_ints (PyInt 0) kp_levels = true /\
  select_kp demo_table (PyInt 0) <> [] /\
  select_kp demo_table (PyInt 0) <> [].
Proof.
  destruct demo_hardy_EUV_returns as [r Hr].
  exact (hardy_EUV_needs_both_tables demo_table demo_table demo_production
           demo_geo2mag demo_geo2mag demo_mlon2mlt demo_sza
           (scalar_array 0) (scalar_array 60) (PyInt 0) demo_time
           "hall" 0.5 100 false "MoenBrekke1993" r Hr).
Defined.

Lemma hardy_EUV_invalid_token_witness :
  hardy_EUV demo_table demo_table demo_production
    demo_geo2mag demo_geo2mag demo_mlon2mlt demo_sza
    (scalar_array 0) (scalar_array 60) (PyInt 0) demo_time
    "ha" 0.5 100 false "MoenBrekke1993"
  = ([], Raise (AssertionError hop_msg)).
Proof.
  apply (hardy_EUV_invalid_token demo_table demo_table demo_production
           demo_geo2mag demo_geo2mag demo_mlon2mlt demo_sza
           (scalar_array 0) (scalar_array 60) (PyInt 0) demo_time
           "ha" 0.5 100 false "MoenBrekke1993").
  reflexivity.
Defined.

Lemma hardy_EUV_notice_witness :
  fst (hardy_EUV demo_table demo_table demo_production
         demo_geo2mag demo_geo2mag demo_mlon2mlt demo_sza
         (scalar_array 0) (scalar_array 60) (PyInt 0) demo_time
         "hall" 0.5 100 false "MoenBrekke1993")
  = if str_in "MoenBrekke1993" calibrations then []
    else [("Invalid calibration: " ++ "MoenBrekke1993"
           ++ ". Using MoenBrekke1993")%string].
Proof.
  destruct demo_hardy_EUV_returns as [r Hr].
  exact (hardy_EUV_notice demo_table demo_table demo_production
           demo_geo2mag demo_geo2mag demo_mlon2mlt demo_sza
           (scalar_array 0) (scalar_array 60) (PyInt 0) demo_time
           "hall" 0.5 100 false "MoenBrekke1993" r Hr).
Defined.

(** *** A scalar latitude *)

Lemma broadcast_rev_same l : broadcast_rev l l = Some l.
Proof.
  induction l as [|x l IH]; [reflexivity|].
  simpl. now rewrite IH, Nat.eqb_refl.
Qed.

Lemma broadcast_shape_same s : broadcast_shape s s = Ok s.
Proof.
  unfold broadcast_shape. now rewrite broadcast_rev_same, rev_involutive.
Qed.

Lemma broadcast_shape_one s :
  s <> [] -> broadcast_shape [1%nat] s = Ok s.
Proof.
  intros Hs. unfold broadcast_shape.
  destruct (rev s) as [|y b] eqn:E.
  - apply (f_equal (@rev nat)) in E. rewrite rev_involutive in E.
    now elim Hs.
  - rewrite <- (rev_involutive s), E.
    destruct y as [|[|y']]; reflexivity.
Qed.

Lemma shape_ndmin1_nonempty a : Np.shape (array_ndmin1 a) <> [].
Proof. destruct a as [[|n s] d]; discriminate. Qed.

Lemma combine_repeat (a : R) (t : list R) :
  combine (repeat a (List.length t)) t = map (pair a) t.
Proof. induction t as [|x t IH]; simpl; [reflexivity | now rewrite IH]. Qed.

Lemma samples_scalar_l a t :
  samples [a] t = samples (repeat a (List.length t)) t.
Proof.
  unfold samples at 2.
  rewrite pairs_same_length by apply repeat_length.
  now rewrite combine_repeat.
Qed.

Lemma hardy_channel_samples table mlat mlat' mlt kp :
  samples mlat mlt = samples mlat' mlt ->
  hardy_channel table mlat mlt kp = hardy_channel table mlat' mlt kp.
Proof.
  intros Hs.
  destruct (derived_columns (select_kp table kp)) as [[|row rows]|e] eqn:Hd.
  - now rewrite !(hardy_channel_norows _ _ _ _ Hd).
  - destruct (samples_cases mlat mlt) as [[xs Hx]|Hx].
    + rewrite (hardy_channel_ok _ _ _ _ _ _ _ Hd Hx).
      rewrite Hs in Hx. now rewrite (hardy_channel_ok _ _ _ _ _ _ _ Hd Hx).
    + rewrite (hardy_channel_mismatch _ _ _ _ _ _ _ Hd Hx).
      rewrite Hs in Hx.
      now rewrite (hardy_channel_mismatch _ _ _ _ _ _ _ Hd Hx).
  - unfold hardy_channel. now rewrite Hd.
Qed.

(** [np.full(np.shape(mlt), a)] *)
Definition np_full_like (mlt : ndarray) (a : R) : ndarray :=
  mk_ndarray (Np.shape mlt) (repeat a (List.length (data mlt))).

(** X13: a scalar latitude is stretched over the local times: [hardy]
    at the scalar a is [hardy] at the array of the shape of mlt filled
    with a, result or exception alike. *)
Theorem hardy_scalar_mlat H P a mlt kp ch :
  hardy H P (scalar_array a) mlt kp ch
  = hardy H P (np_full_like mlt a) mlt kp ch.
Proof.
  unfold hardy.
  assert (Es : broadcast_shape
                 (Np.shape (array_ndmin1 (np_abs (scalar_array a))))
                 (Np.shape (array_ndmin1 mlt))
               = broadcast_shape
                   (Np.shape (array_ndmin1 (np_abs (np_full_like mlt a))))
                   (Np.shape (array_ndmin1 mlt))).
  { rewrite !shape_ndmin1_abs.
    replace (Np.shape (array_ndmin1 (np_full_like mlt a)))
      with (Np.shape (array_ndmin1 mlt))
      by (destruct mlt as [[|n s] d]; reflexivity).
    rewrite broadcast_shape_same.
    apply broadcast_shape_one, shape_ndmin1_nonempty. }
  assert (Ec : forall table,
             hardy_channel table
               (flatten (array_ndmin1 (np_abs (scalar_array a))))
               (flatten (array_ndmin1 mlt)) kp
             = hardy_channel table
                 (flatten (array_ndmin1 (np_abs (np_full_like mlt a))))
                 (flatten (array_ndmin1 mlt)) kp).
  { intros table. rewrite !flatten_abs, !flatten_ndmin1.
    apply hardy_channel_samples. simpl data. simpl map.
    rewrite samples_scalar_l. now rewrite map_repeat. }
  now rewrite Es, !Ec.
Qed.

End CombinerInvariants.
